(** * A shallow embedding of [smooth_filter_openmp.c]

    The program reads an uncompressed 24-bit bitmap, applies a box blur
    whose window is clipped at the image border, and writes the result.

    Conventions of the embedding
    - [size_t] is a 64-bit unsigned integer and [unsigned int] a 32-bit one;
      both are values of [Z] with the wrap-around written out.
    - [unsigned char] is [byte]; a pixel is a record of three of them.
    - [float] and [double] are IEEE 754 binary32 and binary64 with
      round-to-nearest-even, expressed with the parametric operations of
      [SpecFloat] (expressions are evaluated in their own type).
    - A heap array of pixels is a [list RgbPixel]; reads and writes are by
      index, and a file is the list of its bytes.
    - [malloc] is taken to return a block of the size requested.
    - A run that calls [fclose] on a null stream, as [writeBmp] does when it
      cannot open its file, has undefined behaviour: it is [UndefinedRun]. *)

From Stdlib Require Import ZArith Lia List Bool String.
From Stdlib Require Import Init.Byte Strings.Byte.
From Stdlib Require Import Floats.SpecFloat.
From stdpp Require Import base list.

Local Open Scope Z_scope.

(** ** Machine integers *)

Definition SIZE_WIDTH : Z := 64.
Definition UINT_WIDTH : Z := 32.

(** Arithmetic on [size_t] is modulo [2^64]. *)
Definition size_t (z : Z) : Z := z mod 2 ^ SIZE_WIDTH.

(** Arithmetic on [unsigned int] is modulo [2^32]. *)
Definition uint (z : Z) : Z := z mod 2 ^ UINT_WIDTH.

(** The value of an [unsigned char]. *)
Definition uchar_val (c : byte) : Z := Z.of_N (Byte.to_N c).

(** Narrowing of an integer to [unsigned char]: reduction modulo 256. *)
Definition uchar_of_Z (z : Z) : byte :=
  match Byte.of_N (Z.to_N (z mod 256)) with
  | Some c => c
  | None => x00
  end.

(** ** Constants of the file format *)

Definition BMP_HEADER_SIZE : Z := 54.
Definition BMP_HEADER_WIDTH_OFFSET : Z := 18.
Definition BMP_HEADER_HEIGHT_OFFSET : Z := 22.
Definition PIXEL_REAL_SIZE : Z := 3.

(** ** Pixels *)

Record RgbPixel : Type := mkRgbPixel { b : byte; g : byte; r : byte }.

Definition zeroPixel : RgbPixel := mkRgbPixel x00 x00 x00.

(** [bmp[position]]: the read is defined inside the array only; the
    embedding returns the zero pixel elsewhere (lemma [reads_in_bounds]
    shows that the kernel never reads elsewhere). *)
Definition pixel_at (bmp : list RgbPixel) (position : Z) : RgbPixel :=
  default zeroPixel (bmp !! Z.to_nat position).

(** ** Floating point

    [ROUND(x)] is [(unsigned char)((x) + 0.5)] where [x] is the [float]
    quotient [(float)r / count]: both operands are converted to binary32,
    the division is a binary32 division, the sum with the [double]
    constant [0.5] is a binary64 addition, and the conversion to
    [unsigned char] discards the fraction. *)

Module Float.

Definition prec32 : Z := 24.
Definition emax32 : Z := 128.
Definition prec64 : Z := 53.
Definition emax64 : Z := 1024.

  (** Conversion of an unsigned integer to [float]. *)
Definition of_unsigned (n : Z) : spec_float :=
    binary_normalize prec32 emax32 n 0 false.

  (** Division of two [float]s. *)
Definition div (x y : spec_float) : spec_float := SFdiv prec32 emax32 x y.

  (** Promotion of a [float] to [double] (always exact). *)
Definition to_double (x : spec_float) : spec_float :=
    match x with
    | S754_finite s m e => binary_round prec64 emax64 s m e
    | _ => x
    end.

  (** The [double] constant [0.5]. *)
Definition half : spec_float := S754_finite false (2 ^ 52) (-53).

  (** Addition of two [double]s. *)
Definition dadd (x y : spec_float) : spec_float := SFadd prec64 emax64 x y.

  (** The integral part of a floating-point number (rounding towards
      zero).  Infinities and NaN have none; the conversion is undefined
      for them in C and the embedding follows the x86-64 conversion
      instruction, whose low byte is then zero. *)
Definition truncate (x : spec_float) : Z :=
    match x with
    | S754_finite s m e =>
        let a := match e with
                 | Z0 => Zpos m
                 | Zpos p => Zpos m * 2 ^ Zpos p
                 | Zneg p => Zpos m / 2 ^ Zpos p
                 end in
        if s then - a else a
    | _ => 0
    end.

  (** Conversion of a [double] to [unsigned char]. *)
Definition to_uchar (x : spec_float) : byte := uchar_of_Z (truncate x).

End Float.

(** The macro [ROUND], applied to a [float]. *)
Definition ROUND (x : spec_float) : byte :=
  Float.to_uchar (Float.dadd (Float.to_double x) Float.half).

(** [ROUND((float)acc / count)] for an [unsigned int] accumulator and a
    [size_t] count. *)
Definition round_mean (acc count : Z) : byte :=
  ROUND (Float.div (Float.of_unsigned acc) (Float.of_unsigned count)).

(** ** Loops *)

(** [n] iterations of [body] on the consecutive indices [k], [k+1], ... *)
Fixpoint iterate {T : Type} (n : nat) (k : Z) (body : Z -> T -> T) (s : T) : T :=
  match n with
  | O => s
  | S n' => iterate n' (k + 1) body (body k s)
  end.

(** [for (size_t k = lo; k < hi; k++) body] *)
Definition for_lt {T : Type} (lo hi : Z) (body : Z -> T -> T) (s : T) : T :=
  iterate (Z.to_nat (hi - lo)) lo body s.

(** [for (size_t k = lo; k <= hi; k++) body], for [hi < 2^64 - 1] (lemma
    [window_end_bound] shows that the kernel's upper bounds are such). *)
Definition for_le {T : Type} (lo hi : Z) (body : Z -> T -> T) (s : T) : T :=
  iterate (Z.to_nat (hi + 1 - lo)) lo body s.

(** ** The smoothing kernel *)

(** [i < radius ? 0 : i - radius] *)
Definition window_start (i radius : Z) : Z :=
  if i <? radius then 0 else i - radius.

(** [i + radius >= n ? n - 1 : i + radius], in [size_t] arithmetic. *)
Definition window_end (i radius n : Z) : Z :=
  if size_t (i + radius) >=? n then size_t (n - 1) else size_t (i + radius).

(** The three [unsigned int] accumulators, in the order [r], [g], [b]. *)
Record Acc : Type := mkAcc { acc_r : Z; acc_g : Z; acc_b : Z }.

(** The body of the innermost loop. *)
Definition accumulate (bmp : list RgbPixel) (width ii jj : Z) (a : Acc) : Acc :=
  let position := size_t (size_t (ii * width) + jj) in
  let p := pixel_at bmp position in
  mkAcc (uint (acc_r a + uchar_val (r p)))
        (uint (acc_g a + uchar_val (g p)))
        (uint (acc_b a + uchar_val (b p))).

(** The two inner loops: the sums over the window. *)
Definition window_sum (bmp : list RgbPixel) (width starti endi startj endj : Z) : Acc :=
  for_le starti endi
    (fun ii => for_le startj endj (fun jj => accumulate bmp width ii jj))
    (mkAcc 0 0 0).

(** [count = (endi - starti + 1) * (endj - startj + 1)] *)
Definition window_count (starti endi startj endj : Z) : Z :=
  size_t (size_t (size_t (endi - starti) + 1) * size_t (size_t (endj - startj) + 1)).

(** The value stored at [result[i * width + j]]. *)
Definition smooth_pixel (bmp : list RgbPixel) (width height radius i j : Z) : RgbPixel :=
  let starti := window_start i radius in
  let endi := window_end i radius height in
  let startj := window_start j radius in
  let endj := window_end j radius width in
  let count := window_count starti endi startj endj in
  let a := window_sum bmp width starti endi startj endj in
  mkRgbPixel (round_mean (acc_b a) count)
             (round_mean (acc_g a) count)
             (round_mean (acc_r a) count).

(** One iteration of the body of the [j] loop: compute the pixel and
    store it. A store outside the array is undefined in C and leaves the
    list unchanged here (lemma [writes_in_bounds]). *)
Definition smooth_step (bmp : list RgbPixel) (width height radius i j : Z)
    (result : list RgbPixel) : list RgbPixel :=
  let resultPosition := size_t (size_t (i * width) + j) in
  <[Z.to_nat resultPosition := smooth_pixel bmp width height radius i j]> result.

(** The kernel, executed sequentially. *)
Definition processImageSmoothFilter (bmp : list RgbPixel) (width height radius : Z)
    (result : list RgbPixel) : list RgbPixel :=
  for_lt 0 height
    (fun i => for_lt 0 width (fun j => smooth_step bmp width height radius i j))
    result.

(** The positions stored to by the kernel, in program order (the same two
    loops, recording [resultPosition] instead of storing). *)
Definition store_positions (width height : Z) : list Z :=
  for_lt 0 height
    (fun i => for_lt 0 width
       (fun j trace => trace ++ [size_t (size_t (i * width) + j)]))
    [].

(** ** Parallel execution of the row loop

    [#pragma omp parallel for] hands every row [i] of the outer loop to one
    worker; a worker runs the iterations of its rows in order and the
    workers' iterations interleave arbitrarily.  The source array is only
    read and every iteration ends in one store, so an execution is the
    sequence in which the iterations [(i, j)] are carried out. *)

(** The iterations of row [i]. *)
Definition row_iterations (width i : Z) : list (Z * Z) :=
  (fun j => (i, j)) <$> seqZ 0 width.

(** The iterations of a worker that owns the rows [rows]. *)
Definition worker_iterations (width : Z) (rows : list Z) : list (Z * Z) :=
  rows ≫= row_iterations width.

(** [interleaving ls l]: [l] merges the sequences [ls], keeping the order
    inside each of them. *)
Inductive interleaving {A : Type} : list (list A) -> list A -> Prop :=
| interleaving_done (ls : list (list A)) :
    Forall (fun l => l = []) ls -> interleaving ls []
| interleaving_step (ls1 ls2 : list (list A)) (x : A) (l tr : list A) :
    interleaving (ls1 ++ l :: ls2) tr ->
    interleaving (ls1 ++ (x :: l) :: ls2) (x :: tr).

(** Carrying out a sequence of iterations. *)
Definition run_iterations (bmp : list RgbPixel) (width height radius : Z)
    (its : list (Z * Z)) (result : list RgbPixel) : list RgbPixel :=
  fold_left (fun res ij => smooth_step bmp width height radius ij.1 ij.2 res) its result.

(** An assignment of the rows [0 .. height-1] to workers: every row is
    owned by exactly one worker. *)
Definition row_partition (height : Z) (owned : list (list Z)) : Prop :=
  concat owned ≡ₚ seqZ 0 height.

(** ** The bitmap codec *)

(** [header[off]] *)
Definition header_byte (header : list byte) (off : Z) : Z :=
  uchar_val (default x00 (header !! Z.to_nat off)).

(** [*((const unsigned int * )(header + off))] on a little-endian machine. *)
Definition load_uint (header : list byte) (off : Z) : Z :=
  header_byte header off
  + 2 ^ 8 * header_byte header (off + 1)
  + 2 ^ 16 * header_byte header (off + 2)
  + 2 ^ 24 * header_byte header (off + 3).

Definition getWidth (header : list byte) : Z :=
  load_uint header BMP_HEADER_WIDTH_OFFSET.

Definition getHeight (header : list byte) : Z :=
  load_uint header BMP_HEADER_HEIGHT_OFFSET.

(** Calls that acquire or release a resource, in the order they are made. *)
Inductive Event : Type :=
| Fopen
| Fclose
| Malloc (bytes : Z)
| Free.

(** The pixel blocks still allocated after a sequence of calls. *)
Fixpoint live_blocks (trace : list Event) : Z :=
  match trace with
  | [] => 0
  | Malloc _ :: t => live_blocks t + 1
  | Free :: t => live_blocks t - 1
  | _ :: t => live_blocks t
  end.

(** [allocateMemory(size)]: the request made to [malloc] (the allocation is
    taken to succeed; the block's contents are indeterminate).  No caller
    checks the pointer that comes back. *)
Definition allocateMemory (size : Z) : Event :=
  Malloc (size_t (PIXEL_REAL_SIZE * size)).

(** The loop of [readBmp]: one [fread] of three bytes per pixel, stored
    into [( *bmp)[i]].  [Some] is the filled array; [None] is a short read. *)
Fixpoint read_pixels (stream : list byte) (i size : Z) (filled : list RgbPixel)
    : option (list RgbPixel) :=
  if size <=? i then Some filled
  else match stream with
       | c0 :: c1 :: c2 :: rest =>
           read_pixels rest (i + 1) size (filled ++ [mkRgbPixel c0 c1 c2])
       | _ => None
       end.

(** The state that [readBmp] leaves behind. *)
Record ReadResult : Type := mkReadResult {
  read_ok : bool;                       (* the return value *)
  read_header : list byte;              (* the caller's header array *)
  read_bmp : option (list RgbPixel);    (* [*bmp]; [None] is [NULL] *)
  read_trace : list Event               (* resource calls made *)
}.

(** [readBmp(filename, header, bmp)].  [file] is what [fopen(filename,
    "rb")] finds: [None] when the file cannot be opened, else its bytes.

    The loop stores what it reads through the unchecked result of
    [allocateMemory].  A file that ends at the header stores nothing, and
    a file that holds every record of its header needs a block of the size
    of its own data.  A file cut inside its pixel data, however, stores
    the bytes it has into a block whose size comes from the header alone:
    the branch of the short read describes the executions in which
    [malloc] has returned a block of [PIXEL_REAL_SIZE * size] bytes, and
    the source is undefined when the request fails or has wrapped. *)
Definition readBmp (file : option (list byte)) (header : list byte)
    (bmp : option (list RgbPixel)) : ReadResult :=
  match file with
  | None => mkReadResult false header bmp []
  | Some bytes =>
      let got := take (Z.to_nat BMP_HEADER_SIZE) bytes in
      let header' := got ++ drop (length got) header in
      if negb (Z.of_nat (length got) =? BMP_HEADER_SIZE) then
        mkReadResult false header' bmp [Fopen; Fclose]
      else
        let width := getWidth header' in
        let height := getHeight header' in
        let size := size_t (width * height) in
        match read_pixels (drop (Z.to_nat BMP_HEADER_SIZE) bytes) 0 size [] with
        | None =>
            mkReadResult false header' None
              [Fopen; allocateMemory size; Free; Fclose]
        | Some pixels =>
            mkReadResult true header' (Some pixels)
              [Fopen; allocateMemory size; Fclose]
        end
  end.

(** The bytes that [fwrite(bmp + i, 1, PIXEL_REAL_SIZE, f)] writes. *)
Definition pixel_bytes (p : RgbPixel) : list byte := [b p; g p; r p].

(** [writeBmp(filename, header, bmp)].  [can_open] tells whether
    [fopen(filename, "wb")] succeeds.  [Some] is the content of the file
    written by a call that returns [true].  When [fopen] fails the source
    calls [fclose] on the null stream before its [return false]: that call
    is undefined, so no execution of [writeBmp] returns [false], and
    [None] stands for that undefined call. *)
Definition writeBmp (can_open : bool) (header : list byte) (bmp : list RgbPixel)
    : option (list byte) :=
  if negb can_open then None
  else
    let width := getWidth header in
    let height := getHeight header in
    let size := size_t (width * height) in
    Some (for_lt 0 size
            (fun i out => out ++ pixel_bytes (pixel_at bmp i))
            (take (Z.to_nat BMP_HEADER_SIZE) header)).

(** ** The driver *)

Inductive Output : Type :=
| PrintUsage
| PrintCannotRead (name : string)
| PrintCannotWrite (name : string)
| PrintAlgorithmTime (seconds : Z)
| PrintTotalTime (seconds : Z).

(** What a run of the program leaves behind: the exit status, the lines
    printed and the output file, if one is written; or nothing that can be
    told, when the run meets undefined behaviour. *)
Inductive Run : Type :=
| mkRun (exit_status : Z) (printed : list Output)
        (written : option (string * list byte))
| UndefinedRun.

(** The output file of a run. *)
Definition written (run : Run) : option (string * list byte) :=
  match run with
  | mkRun _ _ file => file
  | UndefinedRun => None
  end.

Section Driver.

  (** The C library's [atoi]. *)
Variable atoi : string -> Z.

  (** The files that can be opened for reading, and the paths that can be
      opened for writing. *)
Variable files : string -> option (list byte).
Variable writable : string -> bool.

  (** The four readings of [time(NULL)], in program order. *)
Variables totalBegin begin_ end_ totalEnd : Z.

  (** The indeterminate initial contents of the block returned by
      [allocateMemory(width * height)] for [resultBmp]. *)
Variable fresh : nat -> RgbPixel.

  (** The indeterminate initial contents of the array [header]. *)
Variable stack : list byte.

Definition main (argv : list string) : Run :=
    if negb (Z.of_nat (length argv) =? 4) then
      mkRun 0 [PrintUsage] None
    else
      let inputBmpFileName := default EmptyString (argv !! 1%nat) in
      let outputBmpFileName := default EmptyString (argv !! 2%nat) in
      let radius := size_t (atoi (default EmptyString (argv !! 3%nat))) in
      let rd := readBmp (files inputBmpFileName) stack None in
      if negb (read_ok rd) then
        mkRun 1 [PrintCannotRead inputBmpFileName] None
      else
        let header := read_header rd in
        let bmp := default [] (read_bmp rd) in
        let width := getWidth header in
        let height := getHeight header in
        let resultBmp0 := fresh <$> seq 0 (Z.to_nat (size_t (width * height))) in
        let resultBmp :=
          for_lt 0 100
            (fun _ res => processImageSmoothFilter bmp width height radius res)
            resultBmp0 in
        match writeBmp (writable outputBmpFileName) header resultBmp with
        | None => UndefinedRun
        | Some bytes =>
            (* [writeResult] is [true]: the branch that prints
               [PrintCannotWrite] is not taken *)
            mkRun 0 [PrintAlgorithmTime (end_ - begin_);
                     PrintTotalTime (totalEnd - totalBegin)]
                  (Some (outputBmpFileName, bytes))
        end.

End Driver.

(** ** Resource calls *)

(** The files still open after a sequence of calls. *)
Fixpoint open_files (trace : list Event) : Z :=
  match trace with
  | [] => 0
  | Fopen :: t => open_files t + 1
  | Fclose :: t => open_files t - 1
  | _ :: t => open_files t
  end.

(** ** Notions used to state the properties *)

(** The position of a value [mx + num/den] between the two integers
    around it, as the rounding functions of [SpecFloat] encode it. *)
Definition loc_of (num den : Z) : location :=
  if num =? 0 then loc_Exact else loc_Inexact (2 * num ?= den).

(** [floor (sum / count + 1/2)]: the quotient rounded to the nearest
    integer, ties upwards. *)
Definition round_half_up (sum count : Z) : Z := (2 * sum + count) / (2 * count).

(** [max(0, i - radius)] and [min(n - 1, i + radius)] *)
Definition clip_lo (i radius : Z) : Z := Z.max 0 (i - radius).
Definition clip_hi (i radius n : Z) : Z := Z.min (n - 1) (i + radius).

(** The cells [(ii, jj)] of the rectangle of rows [lo_i .. hi_i] and columns
    [lo_j .. hi_j], row by row. *)
Definition rectangle (lo_i hi_i lo_j hi_j : Z) : list (Z * Z) :=
  ii ← seqZ lo_i (hi_i + 1 - lo_i);
  (fun jj => (ii, jj)) <$> seqZ lo_j (hi_j + 1 - lo_j).

(** The window of the pixel at row [i], column [j]. *)
Definition window_cells (width height radius i j : Z) : list (Z * Z) :=
  rectangle (clip_lo i radius) (clip_hi i radius height)
            (clip_lo j radius) (clip_hi j radius width).

(** The sum of a list of integers. *)
Definition Zsum (l : list Z) : Z := foldr Z.add 0 l.

(** The sum of one channel over a list of cells. *)
Definition channel_sum (chan : RgbPixel -> byte) (bmp : list RgbPixel)
    (width : Z) (cells : list (Z * Z)) : Z :=
  Zsum ((fun c => uchar_val (chan (pixel_at bmp (c.1 * width + c.2)))) <$> cells).

(** The pixel whose channels are the means over [cells], rounded half up
    and narrowed to eight bits. *)
Definition mean_pixel (bmp : list RgbPixel) (width : Z) (cells : list (Z * Z))
    : RgbPixel :=
  let count := Z.of_nat (length cells) in
  mkRgbPixel (uchar_of_Z (round_half_up (channel_sum b bmp width cells) count))
             (uchar_of_Z (round_half_up (channel_sum g bmp width cells) count))
             (uchar_of_Z (round_half_up (channel_sum r bmp width cells) count)).

(** A pixel array of [width * height] elements whose dimensions are
    [size_t] values. *)
Definition image (bmp : list RgbPixel) (width height : Z) : Prop :=
  0 <= width < 2 ^ 64 /\ 0 <= height < 2 ^ 64 /\ width * height < 2 ^ 64 /\
  Z.of_nat (length bmp) = width * height.

(** A well-formed file: a header of [BMP_HEADER_SIZE] bytes followed by
    exactly [width * height] records of [PIXEL_REAL_SIZE] bytes. *)
Definition well_formed_file (bytes : list byte) : Prop :=
  BMP_HEADER_SIZE <= Z.of_nat (length bytes) /\
  Z.of_nat (length bytes) =
    BMP_HEADER_SIZE + PIXEL_REAL_SIZE * (getWidth bytes * getHeight bytes).

(** The iterations of the two loops of the kernel, in program order. *)
Definition all_iterations (width height : Z) : list (Z * Z) :=
  seqZ 0 height ≫= row_iterations width.

(** The pixel that the kernel stores at a position. *)
Definition stored_pixel (bmp : list RgbPixel) (width height radius p : Z) : RgbPixel :=
  smooth_pixel bmp width height radius (p / width) (p mod width).

(** ** Inputs used in examples *)

(** The image of the border example: eight black pixels and a white
    corner. *)
Definition gray (v : Z) : RgbPixel := mkRgbPixel (uchar_of_Z v) (uchar_of_Z v) (uchar_of_Z v).

Definition corner_image : list RgbPixel := gray 255 :: replicate 8 (gray 0).

(** A row of 65537 pixels, 32768 of value 129 and 32769 of value 128:
    the mean of the row is just below 128.5. *)
Definition long_row : list RgbPixel :=
  replicate (Z.to_nat 32768) (gray 129) ++ replicate (Z.to_nat 32769) (gray 128).

(** A file of one pixel: a header whose width and height are 1, and the
    three bytes of the pixel. *)
Definition tiny_file : list byte :=
  replicate 18 x00 ++ [x01; x00; x00; x00; x01; x00; x00; x00]
  ++ replicate 28 x00 ++ [x0a; x14; x1e].

(** A white row of 16843010 pixels. *)
Definition white_row_length : Z := 16843010.

(** * Properties *)

(** ** Rounding to nearest in [SpecFloat] *)

Section Rounding.
Variables prec emax : Z.

Lemma digits2_bounds (p : positive) :
    2 ^ (Zpos (digits2_pos p) - 1) <= Zpos p < 2 ^ Zpos (digits2_pos p).
Proof.
    induction p as [p IH|p IH|]; cbn [digits2_pos].
    - rewrite Pos2Z.inj_succ. replace (Z.succ (Zpos (digits2_pos p)) - 1) with (Z.succ (Zpos (digits2_pos p) - 1)) by lia.
      rewrite !Z.pow_succ_r by lia. lia.
    - rewrite Pos2Z.inj_succ. replace (Z.succ (Zpos (digits2_pos p)) - 1) with (Z.succ (Zpos (digits2_pos p) - 1)) by lia.
      rewrite !Z.pow_succ_r by lia. lia.
    - cbn. lia.
Qed.

Lemma Zdigits2_unique (n d : Z) :
    2 ^ (d - 1) <= n < 2 ^ d -> 0 < n -> Zdigits2 n = d.
Proof.
    intros H Hn. destruct n as [|p|p]; try lia. cbn [Zdigits2].
    pose proof (digits2_bounds p) as Hb.
    set (d' := Zpos (digits2_pos p)) in *.
    assert (0 < d) by (destruct (Z.ltb_spec 0 d); [lia|]; rewrite (Z.pow_neg_r 2 (d-1)) in H by lia; 
       destruct (Z.eq_dec d 0); [subst; cbn in H; lia| rewrite Z.pow_neg_r in H by lia; lia]).
    destruct (Z.lt_trichotomy d' d) as [Hlt|[->|Hgt]]; [|reflexivity|]; exfalso.
    - assert (2 ^ d' <= 2 ^ (d - 1)) by (apply Z.pow_le_mono_r; lia). lia.
    - assert (2 ^ d <= 2 ^ (d' - 1)) by (apply Z.pow_le_mono_r; lia). lia.
Qed.

Lemma iter_pos_nat {A} (f : A -> A) (p : positive) (x : A) :
    SpecFloat.iter_pos f p x = Nat.iter (Pos.to_nat p) f x.
Proof.
    revert x. induction p as [p IH|p IH|]; intros x; cbn [SpecFloat.iter_pos].
    - rewrite !IH, Pos2Nat.inj_xI.
      replace (S (2 * Pos.to_nat p)) with (Pos.to_nat p + S (Pos.to_nat p))%nat by lia.
      rewrite Nat.iter_add, Nat.iter_succ_r. reflexivity.
    - rewrite !IH, Pos2Nat.inj_xO.
      replace (2 * Pos.to_nat p)%nat with (Pos.to_nat p + Pos.to_nat p)%nat by lia.
      rewrite Nat.iter_add. reflexivity.
    - reflexivity.
Qed.

Lemma shr_1_nonneg (m : Z) (rb sb : bool) :
    0 <= m ->
    shr_1 (Build_shr_record m rb sb) = Build_shr_record (m / 2) (Z.odd m) (rb || sb).
Proof.
    intros Hm. rewrite <- Z.div2_div.
    destruct m as [|[p|p|]|]; try lia; reflexivity.
Qed.

Lemma shr_record_of_loc_of (m num den : Z) :
    0 <= num < den ->
    shr_record_of_loc m (loc_of num den) =
    Build_shr_record m (den <=? 2 * num) (negb ((num =? 0) || (2 * num =? den))).
Proof.
    intros Hn. unfold loc_of.
    destruct (Z.eqb_spec num 0) as [->|Hnz]; cbn [shr_record_of_loc orb negb].
    - destruct (Z.leb_spec den (2 * 0)); [lia|reflexivity].
    - destruct (Z.compare_spec (2 * num) den), (Z.leb_spec den (2 * num)),
        (Z.eqb_spec (2 * num) den); try lia; reflexivity.
Qed.

Lemma shr_1_loc (m num den : Z) :
    0 <= m -> 0 <= num < den ->
    shr_1 (shr_record_of_loc m (loc_of num den)) =
    shr_record_of_loc (m / 2) (loc_of ((m mod 2) * den + num) (2 * den)).
Proof.
    intros Hm Hn.
    assert (Hmod : 0 <= m mod 2 < 2) by (apply Z.mod_pos_bound; lia).
    rewrite !shr_record_of_loc_of by nia.
    rewrite shr_1_nonneg by lia. f_equal.
    - rewrite Zmod_odd. destruct (Z.odd m);
        destruct (Z.leb_spec (2 * den) (2 * (1 * den + num))),
                 (Z.leb_spec (2 * den) (2 * (0 * den + num))); try lia; reflexivity.
    - rewrite Zmod_odd. destruct (Z.odd m);
        repeat match goal with
        | |- context [?a =? ?b] => destruct (Z.eqb_spec a b)
        | |- context [?a <=? ?b] => destruct (Z.leb_spec a b)
        end; try lia; reflexivity.
Qed.

Lemma shr_loc (m num den e k : Z) :
    0 <= m -> 0 <= num < den -> 0 <= k ->
    shr (shr_record_of_loc m (loc_of num den)) e k =
    (shr_record_of_loc (m / 2 ^ k) (loc_of ((m mod 2 ^ k) * den + num) (2 ^ k * den)), e + k).
Proof.
    intros Hm Hn Hk. destruct k as [|p|p]; try lia; cbn [shr].
    - rewrite Z.pow_0_r, Z.div_1_r, Z.mod_1_r, Z.add_0_r.
      replace (0 * den + num) with num by lia. replace (1 * den) with den by lia.
      reflexivity.
    - f_equal. rewrite iter_pos_nat, <- (positive_nat_Z p).
      induction (Pos.to_nat p) as [|n IH].
      + change (Z.of_nat 0) with 0. change (Nat.iter 0 shr_1 ?x) with x.
        rewrite Z.pow_0_r, Z.div_1_r, Z.mod_1_r.
        replace (0 * den + num) with num by lia. replace (1 * den) with den by lia.
        reflexivity.
      + rewrite Nat.iter_succ, IH, Nat2Z.inj_succ.
        assert (Hp : 0 < 2 ^ Z.of_nat n) by (apply Z.pow_pos_nonneg; lia).
        rewrite shr_1_loc.
        * rewrite Z.pow_succ_r by lia.
          rewrite Z.div_div by lia.
          rewrite (Z.mul_comm 2 (2 ^ Z.of_nat n)).
          rewrite (Z.rem_mul_r m (2 ^ Z.of_nat n) 2) by lia.
          f_equal. f_equal; lia.
        * apply Z.div_pos; lia.
        * pose proof (Z.mod_pos_bound m (2 ^ Z.of_nat n) Hp). nia.
Qed.

Lemma shr_m_of_loc (m : Z) (l : location) : shr_m (shr_record_of_loc m l) = m.
Proof. destruct l as [|[]]; reflexivity. Qed.

Lemma loc_of_shr_record_of_loc (m : Z) (l : location) :
    loc_of_shr_record (shr_record_of_loc m l) = l.
Proof. destruct l as [|[]]; reflexivity. Qed.

Lemma round_nearest_even_loc (m num den : Z) :
    0 <= num < den ->
    let m' := round_nearest_even m (loc_of num den) in
    (m' = m \/ m' = m + 1) /\
    Z.abs (2 * (m' * den - (m * den + num))) <= den /\
    (num = 0 -> m' = m).
Proof.
    intros Hn. unfold loc_of, round_nearest_even.
    destruct (Z.eqb_spec num 0) as [->|Hnz]; [lia|].
    destruct (Z.compare_spec (2 * num) den); [destruct (Z.even m)| |]; lia.
Qed.

Hypothesis Hprec : 0 < prec.

Lemma Zdigits2_bounds (n : Z) :
    0 < n -> 2 ^ (Zdigits2 n - 1) <= n < 2 ^ Zdigits2 n.
Proof. destruct n as [|p|p]; try lia. intros _. apply digits2_bounds. Qed.

Lemma Zdigits2_pos (n : Z) : 0 < n -> 0 < Zdigits2 n.
Proof. destruct n; cbn; lia. Qed.

Lemma pow2_split (a c : Z) : 0 <= a -> 0 <= c -> 2 ^ (a + c) = 2 ^ a * 2 ^ c.
Proof. intros. apply Z.pow_add_r; lia. Qed.

  (** The mantissa kept by a right shift that leaves [prec] digits. *)
Lemma shifted_mantissa_bounds (mx : Z) :
    0 < mx -> prec <= Zdigits2 mx ->
    2 ^ (prec - 1) <= mx / 2 ^ (Zdigits2 mx - prec) < 2 ^ prec.
Proof.
    intros Hmx Hd. pose proof (Zdigits2_bounds mx Hmx) as Hb.
    set (k := Zdigits2 mx - prec) in *.
    assert (Hk : 0 < 2 ^ k) by (apply Z.pow_pos_nonneg; lia).
    replace (Zdigits2 mx) with (prec + k) in Hb by lia.
    replace (prec + k - 1) with ((prec - 1) + k) in Hb by lia.
    rewrite (pow2_split prec k), (pow2_split (prec - 1) k) in Hb by lia.
    split.
    - apply Z.div_le_lower_bound; lia.
    - apply Z.div_lt_upper_bound; lia.
Qed.

Lemma binary_round_aux_spec (mx ex num den : Z) :
    0 < mx -> 0 <= num < den ->
    prec <= Zdigits2 mx ->
    emin prec emax <= ex + (Zdigits2 mx - prec) ->
    ex + (Zdigits2 mx - prec) + 1 <= emax - prec ->
    binary_round_aux prec emax false mx ex (loc_of num den) =
      let k := Zdigits2 mx - prec in
      let m1 := round_nearest_even (mx / 2 ^ k)
                  (loc_of ((mx mod 2 ^ k) * den + num) (2 ^ k * den)) in
      if m1 =? 2 ^ prec
      then S754_finite false (Z.to_pos (2 ^ (prec - 1))) (ex + k + 1)
      else S754_finite false (Z.to_pos m1) (ex + k).
Proof.
    intros Hmx Hn Hd Hlo Hhi. cbv zeta.
    set (k := Zdigits2 mx - prec) in *.
    assert (Hk : 0 < 2 ^ k) by (apply Z.pow_pos_nonneg; lia).
    pose proof (shifted_mantissa_bounds mx Hmx Hd) as Hms. fold k in Hms.
    pose proof (Z.mod_pos_bound mx (2 ^ k) Hk) as Hmod.
    assert (Hn' : 0 <= (mx mod 2 ^ k) * den + num < 2 ^ k * den) by nia.
    pose proof (round_nearest_even_loc (mx / 2 ^ k) _ _ Hn') as (Hm1 & _ & _).
    set (m1 := round_nearest_even _ _) in *.
    unfold binary_round_aux, shr_fexp.
    replace (fexp prec emax (Zdigits2 mx + ex) - ex) with k
      by (unfold fexp; lia).
    rewrite shr_loc by lia.
    rewrite shr_m_of_loc, loc_of_shr_record_of_loc. fold m1.
    assert (Hp1 : 2 ^ prec = 2 * 2 ^ (prec - 1)).
    { replace prec with (Z.succ (prec - 1)) at 1 by lia. apply Z.pow_succ_r; lia. }
    change loc_Exact with (loc_of 0 1).
    destruct (Z.eqb_spec m1 (2 ^ prec)) as [Heq|Hne].
    - assert (Hdig : Zdigits2 m1 = prec + 1).
      { apply Zdigits2_unique; [|lia]. replace (prec + 1 - 1) with prec by lia.
        rewrite Heq. split; [lia|]. apply Z.pow_lt_mono_r; lia. }
      replace (fexp prec emax (Zdigits2 m1 + (ex + k)) - (ex + k)) with 1
        by (unfold fexp; lia).
      rewrite shr_loc by lia. rewrite shr_m_of_loc.
      rewrite Z.pow_1_r, Heq, Hp1, Z.mul_comm, Z.div_mul by lia.
      assert (Hpos : 0 < 2 ^ (prec - 1)) by (apply Z.pow_pos_nonneg; lia).
      destruct (2 ^ (prec - 1)) as [|q|q]; try lia.
      destruct (Z.leb_spec (ex + k + 1) (emax - prec)); [reflexivity|lia].
    - assert (Hdig : Zdigits2 m1 = prec) by (apply Zdigits2_unique; lia).
      replace (fexp prec emax (Zdigits2 m1 + (ex + k)) - (ex + k)) with 0
        by (unfold fexp; lia).
      cbn [shr]. rewrite shr_m_of_loc.
      assert (Hpos : 0 < m1) by lia.
      destruct m1 as [|q|q]; try lia.
      destruct (Z.leb_spec (ex + k) (emax - prec)); [reflexivity|lia].
Qed.

Lemma iter_xO_pow2 (m d : positive) :
    Zpos (Pos.iter xO m d) = Zpos m * 2 ^ Zpos d.
Proof.
    induction d as [|d IH] using Pos.peano_ind.
    - cbn. lia.
    - rewrite Pos.iter_succ, Pos2Z.inj_xO, IH, Pos2Z.inj_succ, Z.pow_succ_r by lia. lia.
Qed.

Lemma shl_align_spec (mx : positive) (ex ex' : Z) :
    shl_align mx ex ex' =
    if ex' <? ex then (Z.to_pos (Zpos mx * 2 ^ (ex - ex')), ex') else (mx, ex).
Proof.
    unfold shl_align. destruct (Z.ltb_spec ex' ex) as [Hlt|Hge].
    - destruct (ex' - ex) as [|p|p] eqn:E; try lia.
      replace (ex - ex') with (Zpos p) by lia.
      rewrite <- iter_xO_pow2. reflexivity.
    - destruct (ex' - ex) as [|p|p] eqn:E; try lia; reflexivity.
Qed.

Lemma new_location_loc (nb k : Z) :
    0 <= k < nb -> new_location nb k = loc_of k nb.
Proof.
    intros Hk. unfold new_location, new_location_even, new_location_odd, loc_of.
    destruct (Z.even nb) eqn:Hev; [reflexivity|].
    destruct (Z.eqb_spec k 0); [reflexivity|].
    assert (Hodd : Z.odd nb = true) by (rewrite <- Z.negb_even, Hev; reflexivity).
    apply Z.odd_spec in Hodd. destruct Hodd as [h Hh].
    destruct (Z.compare_spec (2 * k + 1) nb), (Z.compare_spec (2 * k) nb);
      try lia; reflexivity.
Qed.

  (** [binary_round] on a mantissa of at most [prec] digits is exact: the
      mantissa is shifted left to [prec] digits. *)
Lemma binary_round_small (mx : positive) (ex : Z) :
    let d := Zdigits2 (Zpos mx) in
    d <= prec ->
    emin prec emax <= ex + (d - prec) -> ex + (d - prec) + 1 <= emax - prec ->
    binary_round prec emax false mx ex =
      S754_finite false (Z.to_pos (Zpos mx * 2 ^ (prec - d))) (ex + (d - prec)).
Proof.
    intros d Hd Hlo Hhi. unfold binary_round.
    change (Zpos (digits2_pos mx)) with d.
    replace (fexp prec emax (d + ex)) with (ex + (d - prec)) by (unfold fexp; lia).
    pose proof (Zdigits2_bounds (Zpos mx) eq_refl) as Hb. fold d in Hb.
    assert (Hdpos : 0 < d) by (apply Zdigits2_pos; lia).
    set (M := Zpos mx * 2 ^ (prec - d)).
    assert (HM : 2 ^ (prec - 1) <= M < 2 ^ prec).
    { unfold M. assert (0 < 2 ^ (prec - d)) by (apply Z.pow_pos_nonneg; lia).
      assert (E1 : 2 ^ (prec - 1) = 2 ^ (d - 1) * 2 ^ (prec - d))
        by (rewrite <- pow2_split by lia; f_equal; lia).
      assert (E2 : 2 ^ prec = 2 ^ d * 2 ^ (prec - d))
        by (rewrite <- pow2_split by lia; f_equal; lia).
      rewrite E1, E2. nia. }
    assert (HdM : Zdigits2 M = prec) by (apply Zdigits2_unique; lia).
    assert (Hal : shl_align mx ex (ex + (d - prec)) =
                  (Z.to_pos M, ex + (d - prec))).
    { rewrite shl_align_spec. destruct (Z.ltb_spec (ex + (d - prec)) ex) as [Hlt|Hge].
      - unfold M. replace (ex - (ex + (d - prec))) with (prec - d) by lia. reflexivity.
      - assert (d = prec) by lia. unfold M.
        replace (prec - d) with 0 by lia. rewrite Z.pow_0_r, Z.mul_1_r.
        cbn [Z.to_pos]. f_equal. lia. }
    rewrite Hal. rewrite Z2Pos.id by lia.
    change loc_Exact with (loc_of 0 1).
    rewrite binary_round_aux_spec by (rewrite ?HdM; lia).
    cbv zeta. rewrite HdM, Z.sub_diag, Z.pow_0_r, Z.div_1_r, Z.mod_1_r.
    change (0 * 1 + 0) with 0. change (1 * 1) with 1.
    change (round_nearest_even M (loc_of 0 1)) with M.
    destruct (Z.eqb_spec M (2 ^ prec)); [lia|]. f_equal. lia.
Qed.

  (** [binary_round] on a longer mantissa whose low bits are zero is exact
      as well: the zero bits are shifted out. *)
Lemma binary_round_exact_shift (mx : positive) (ex : Z) :
    let k := Zdigits2 (Zpos mx) - prec in
    0 <= k -> Zpos mx mod 2 ^ k = 0 ->
    emin prec emax <= ex + k -> ex + k + 1 <= emax - prec ->
    binary_round prec emax false mx ex =
      S754_finite false (Z.to_pos (Zpos mx / 2 ^ k)) (ex + k).
Proof.
    intros k Hk Hmod Hlo Hhi. unfold binary_round.
    change (Zpos (digits2_pos mx)) with (Zdigits2 (Zpos mx)).
    replace (fexp prec emax (Zdigits2 (Zpos mx) + ex)) with (ex + k)
      by (unfold fexp, k; lia).
    rewrite shl_align_spec.
    destruct (Z.ltb_spec (ex + k) ex); [lia|].
    change loc_Exact with (loc_of 0 1).
    rewrite binary_round_aux_spec by (fold k; lia).
    cbv zeta. fold k. rewrite Hmod.
    change (0 * 1 + 0) with 0.
    change (round_nearest_even (Zpos mx / 2 ^ k) (loc_of 0 (2 ^ k * 1)))
      with (Zpos mx / 2 ^ k).
    pose proof (shifted_mantissa_bounds (Zpos mx) eq_refl ltac:(fold k; lia)) as Hb.
    fold k in Hb.
    destruct (Z.eqb_spec (Zpos mx / 2 ^ k) (2 ^ prec)); [lia|reflexivity].
Qed.
End Rounding.

(** ** The two formats of the program *)

Lemma Zdigits2_le (n d : Z) : 0 < n -> n < 2 ^ d -> Zdigits2 n <= d.
Proof.
  intros Hn Hd. pose proof (Zdigits2_bounds n Hn) as Hb.
  destruct (Z.le_gt_cases (Zdigits2 n) d) as [|Hgt]; [assumption|exfalso].
  assert (2 ^ d <= 2 ^ (Zdigits2 n - 1)) by (apply Z.pow_le_mono_r; lia). lia.
Qed.

Lemma Zdigits2_ge (n d : Z) : 2 ^ (d - 1) <= n -> 0 < n -> d <= Zdigits2 n.
Proof.
  intros Hd Hn. pose proof (Zdigits2_bounds n Hn) as Hb.
  destruct (Z.le_gt_cases d (Zdigits2 n)) as [|Hgt]; [assumption|exfalso].
  assert (2 ^ Zdigits2 n <= 2 ^ (d - 1)) by (apply Z.pow_le_mono_r; [lia|]; pose proof (Zdigits2_pos n Hn); lia). lia.
Qed.

Lemma of_unsigned_small (n : Z) :
  0 < n < 2 ^ 24 ->
  Float.of_unsigned n =
  S754_finite false (Z.to_pos (n * 2 ^ (24 - Zdigits2 n))) (Zdigits2 n - 24).
Proof.
  intros Hn. destruct n as [|p|p]; try lia.
  unfold Float.of_unsigned, binary_normalize.
  assert (Hd : Zdigits2 (Zpos p) <= 24) by (apply Zdigits2_le; lia).
  pose proof (Zdigits2_pos (Zpos p) eq_refl).
  rewrite binary_round_small; unfold Float.prec32, Float.emax32, emin; try lia.
  reflexivity.
Qed.

Lemma to_double_normal (m e : Z) :
  2 ^ 23 <= m < 2 ^ 24 -> -1000 <= e <= 900 ->
  Float.to_double (S754_finite false (Z.to_pos m) e) =
  S754_finite false (Z.to_pos (m * 2 ^ 29)) (e - 29).
Proof.
  intros Hm He. unfold Float.to_double.
  assert (Hd : Zdigits2 (Zpos (Z.to_pos m)) = 24)
    by (rewrite Z2Pos.id by lia; apply Zdigits2_unique; cbn in *; lia).
  rewrite binary_round_small; unfold Float.prec64, Float.emax64, emin; rewrite ?Hd; try lia.
  rewrite Z2Pos.id by lia. reflexivity.
Qed.

Lemma div_normal (m1 e1 m2 e2 : Z) :
  2 ^ 23 <= m1 < 2 ^ 24 -> 2 ^ 23 <= m2 < 2 ^ 24 ->
  -100 <= e1 - e2 <= 100 ->
  exists m e,
    Float.div (S754_finite false (Z.to_pos m1) e1) (S754_finite false (Z.to_pos m2) e2)
    = S754_finite false (Z.to_pos m) e /\
    2 ^ 23 <= m < 2 ^ 24 /\
    e1 - e2 - 24 <= e <= e1 - e2 - 22 /\
    Z.abs (2 * (m * 2 ^ (e - (e1 - e2 - 24)) * m2 - m1 * 2 ^ 24))
      <= 2 ^ (e - (e1 - e2 - 24)) * m2.
Proof.
  intros Hm1 Hm2 He.
  assert (Hd1 : Zdigits2 m1 = 24) by (apply Zdigits2_unique; cbn in *; lia).
  assert (Hd2 : Zdigits2 m2 = 24) by (apply Zdigits2_unique; cbn in *; lia).
  unfold Float.div, SFdiv, SFdiv_core_binary.
  rewrite !Z2Pos.id by lia. rewrite Hd1, Hd2.
  replace (Z.min (fexp Float.prec32 Float.emax32 (24 + e1 - (24 + e2))) (e1 - e2))
    with (e1 - e2 - 24) by (unfold fexp, emin, Float.prec32, Float.emax32; lia).
  replace (e1 - e2 - (e1 - e2 - 24)) with 24 by lia.
  rewrite Z.shiftl_mul_pow2 by lia.
  pose proof (Z_div_mod (m1 * 2 ^ 24) m2 ltac:(lia)) as Hqr.
  destruct (Z.div_eucl (m1 * 2 ^ 24) m2) as [q rr]. destruct Hqr as [Hq Hr].
  cbn [xorb].
  rewrite new_location_loc by lia.
  assert (Hqb : 2 ^ 23 <= q < 2 ^ 25) by (cbn in *; nia).
  assert (Hdq : 24 <= Zdigits2 q <= 25).
  { split; [apply Zdigits2_ge|apply Zdigits2_le]; cbn in *; lia. }
  rewrite binary_round_aux_spec;
    unfold Float.prec32, Float.emax32, emin; try lia.
  cbv zeta.
  set (k := Zdigits2 q - 24) in *.
  assert (Hk : 0 < 2 ^ k) by (apply Z.pow_pos_nonneg; lia).
  pose proof (shifted_mantissa_bounds 24 ltac:(lia) q ltac:(lia) ltac:(lia)) as Hms. fold k in Hms.
  pose proof (Z.mod_pos_bound q (2 ^ k) Hk) as Hmod.
  pose proof (Z.div_mod q (2 ^ k) ltac:(lia)) as Hdm.
  assert (Hn' : 0 <= (q mod 2 ^ k) * m2 + rr < 2 ^ k * m2) by nia.
  pose proof (round_nearest_even_loc (q / 2 ^ k) _ _ Hn') as (Hm' & Hnear & _).
  set (m' := round_nearest_even _ _) in *. cbv zeta in Hnear.
  assert (Hval : q / 2 ^ k * (2 ^ k * m2) + (q mod 2 ^ k * m2 + rr) = m1 * 2 ^ 24).
  { rewrite Hq. rewrite Hdm at 3. ring. }
  rewrite Hval in Hnear.
  destruct (Z.eqb_spec m' (2 ^ 24)) as [Heq|Hne].
  - exists (2 ^ 23), (e1 - e2 - 24 + k + 1). split; [reflexivity|].
    split; [cbn; lia|]. split; [lia|].
    replace (e1 - e2 - 24 + k + 1 - (e1 - e2 - 24)) with (Z.succ k) by lia.
    rewrite Z.pow_succ_r by lia.
    replace (2 ^ 23 * (2 * 2 ^ k) * m2) with (2 ^ 24 * (2 ^ k * m2)) by ring.
    rewrite <- Heq.
    assert (0 < 2 ^ k * m2) by (apply Z.mul_pos_pos; lia). lia.
  - exists m', (e1 - e2 - 24 + k). split; [reflexivity|].
    split; [lia|]. split; [lia|].
    replace (e1 - e2 - 24 + k - (e1 - e2 - 24)) with k by lia.
    rewrite <- Z.mul_assoc. exact Hnear.
Qed.

Lemma truncate_neg (m : positive) (e : Z) :
  e < 0 -> Float.truncate (S754_finite false m e) = Zpos m / 2 ^ (- e).
Proof. intros He. destruct e as [|p|p]; try lia. reflexivity. Qed.

Lemma ROUND_normal (m e : Z) :
  2 ^ 23 <= m < 2 ^ 24 -> -52 <= e <= -1 ->
  ROUND (S754_finite false (Z.to_pos m) e) =
  uchar_of_Z ((m + 2 ^ (- e - 1)) / 2 ^ (- e)).
Proof.
  intros Hm He. unfold ROUND. rewrite to_double_normal by lia.
  set (ez := Z.min (e - 29) (-53)).
  set (gg := e - ez).
  set (N := m + 2 ^ (- e - 1)).
  assert (Hg : 29 <= gg <= 52) by (unfold gg, ez; lia).
  assert (Hh : 2 ^ 0 <= 2 ^ (- e - 1) <= 2 ^ 51)
    by (split; apply Z.pow_le_mono_r; lia).
  assert (HN : 0 < N < 2 ^ 52) by (unfold N; cbn in *; lia).
  assert (Hpg : 2 ^ 29 <= 2 ^ gg) by (apply Z.pow_le_mono_r; lia).
  assert (Hsum : Float.dadd (S754_finite false (Z.to_pos (m * 2 ^ 29)) (e - 29)) Float.half
                 = binary_round Float.prec64 Float.emax64 false (Z.to_pos (N * 2 ^ gg)) ez).
  { assert (Hval : forall a c : positive, Zpos a + Zpos c = N * 2 ^ gg ->
        binary_normalize Float.prec64 Float.emax64
          (cond_Zopp false (Zpos a) + cond_Zopp false (Zpos c)) ez false
        = binary_round Float.prec64 Float.emax64 false (Z.to_pos (N * 2 ^ gg)) ez).
    { intros a c Hac. rewrite <- Hac. reflexivity. }
    unfold Float.dadd, SFadd, Float.half. fold ez. rewrite !shl_align_spec.
    destruct (Z.ltb_spec ez (e - 29)), (Z.ltb_spec ez (-53)); unfold ez in *; try lia;
      cbn [fst]; apply Hval; unfold N; rewrite Z.mul_add_distr_r;
      rewrite <- (pow2_split (- e - 1) gg) by lia.
    - replace (Z.min (e - 29) (-53)) with (-53) in * by lia.
      assert (0 < 2 ^ (e - 29 - -53)) by (apply Z.pow_pos_nonneg; lia).
      rewrite !Z2Pos.id by (cbn in *; nia).
      unfold gg. replace (Z.min (e - 29) (-53)) with (-53) by lia.
      replace (e - -53) with (29 + (e - 29 - -53)) by lia.
      rewrite (pow2_split 29 (e - 29 - -53)) by lia.
      replace (- e - 1 + (29 + (e - 29 - -53))) with 52 by lia.
      change (Zpos (2 ^ 52)) with (2 ^ 52). lia.
    - replace (Z.min (e - 29) (-53)) with (e - 29) in * by lia.
      assert (0 < 2 ^ (-53 - (e - 29))) by (apply Z.pow_pos_nonneg; lia).
      rewrite !Z2Pos.id by (cbn in *; nia).
      unfold gg. replace (Z.min (e - 29) (-53)) with (e - 29) by lia.
      replace (e - (e - 29)) with 29 by lia.
      replace (- e - 1 + 29) with (52 + (-53 - (e - 29))) by lia.
      rewrite (pow2_split 52 (-53 - (e - 29))) by lia.
      change (Zpos (2 ^ 52)) with (2 ^ 52). lia.
    - assert (e = -24) by lia. subst e.
      unfold gg. change (Z.min (-24 - 29) (-53)) with (-53).
      rewrite Z2Pos.id by lia.
      change (- -24 - 1 + (-24 - -53)) with 52. change (-24 - -53) with 29.
      change (Zpos (2 ^ 52)) with (2 ^ 52). lia. }
  rewrite Hsum.
  assert (HS : 2 ^ 52 <= N * 2 ^ gg < 2 ^ 52 * 2 ^ gg).
  { split; [|nia]. unfold N. rewrite Z.mul_add_distr_r.
    rewrite <- (pow2_split (- e - 1) gg) by lia.
    assert (2 ^ 52 <= 2 ^ (- e - 1 + gg)) by (apply Z.pow_le_mono_r; unfold gg, ez; lia).
    nia. }
  set (S := N * 2 ^ gg) in *.
  assert (HdS : 53 <= Zdigits2 S <= 52 + gg).
  { split; [apply Zdigits2_ge; cbn in *; lia|].
    apply Zdigits2_le; [cbn in *; lia|]. rewrite pow2_split by lia. lia. }
  set (k := Zdigits2 S - 53) in *.
  assert (Hk : 0 < 2 ^ k) by (apply Z.pow_pos_nonneg; lia).
  assert (Hsplit : 2 ^ gg = 2 ^ k * 2 ^ (gg - k))
    by (rewrite <- pow2_split by lia; f_equal; lia).
  assert (Hmod : S mod 2 ^ k = 0).
  { unfold S. rewrite Hsplit.
    replace (N * (2 ^ k * 2 ^ (gg - k))) with (N * 2 ^ (gg - k) * 2 ^ k) by lia.
    apply Z.mod_mul. lia. }
  rewrite binary_round_exact_shift;
    unfold Float.prec64, Float.emax64, emin; rewrite ?Z2Pos.id by (cbn in *; lia);
    fold k; try lia; [|unfold ez; lia..].
  unfold Float.to_uchar. f_equal.
  rewrite truncate_neg by (unfold gg in *; lia).
  pose proof (shifted_mantissa_bounds 53 ltac:(lia) S ltac:(cbn in *; lia) ltac:(lia)) as Hb.
  fold k in Hb.
  rewrite Z2Pos.id by (cbn in *; lia).
  rewrite Z.div_div by (try apply Z.pow_pos_nonneg; lia).
  rewrite <- pow2_split by (unfold gg in *; lia).
  replace (k + - (ez + k)) with (gg + - e) by (unfold gg; lia).
  rewrite pow2_split by lia. unfold S.
  rewrite Z.mul_comm, Z.div_mul_cancel_l by (try apply Z.pow_nonzero; lia).
  reflexivity.
Qed.

Lemma nearest_round_aux (m s c P K : Z) :
  0 < m -> 0 <= s -> 1 <= c <= 65536 -> 32768 <= P ->
  Z.abs (2 * (m * c - s * (2 * P))) <= c ->
  2 * c * K <= 2 * s + c < 2 * c * K + 2 * c ->
  2 * P * K <= m + P < 2 * P * K + 2 * P.
Proof.
  intros Hm Hs Hc HP Hnear HK.
  assert (Hlo : 2 * P * (2 * c * K - c) <= 2 * P * (2 * s)) by nia.
  split.
  - assert (0 <= c * (2 * m + 2 * P + 1 - 4 * P * K)) by nia.
    assert (0 <= 2 * m + 2 * P + 1 - 4 * P * K) by nia. lia.
  - destruct (Z.eq_dec c 65536) as [->|Hne].
    + assert (P = 32768 \/ 32769 <= P) as [->|HP'] by lia.
      * lia.
      * assert (2 * P * (2 * s) <= 2 * P * (2 * 65536 * K + 65536 - 1)) by nia. nia.
    + assert (Hup : 2 * P * (2 * s) <= 2 * P * (2 * c * K + c - 1)) by nia.
      assert (c * (2 * m) < c * (4 * P * K + 2 * P)) by nia.
      assert (2 * m < 4 * P * K + 2 * P) by nia. lia.
Qed.

Lemma nearest_round (m s c t : Z) :
  0 < m -> 0 <= s -> 1 <= c <= 65536 -> 16 <= t ->
  Z.abs (2 * (m * c - s * 2 ^ t)) <= c ->
  (m + 2 ^ (t - 1)) / 2 ^ t = (2 * s + c) / (2 * c).
Proof.
  intros Hm Hs Hc Ht Hnear.
  assert (HP : 2 ^ 15 <= 2 ^ (t - 1)) by (apply Z.pow_le_mono_r; lia).
  assert (HT : 2 ^ t = 2 * 2 ^ (t - 1)).
  { replace t with (Z.succ (t - 1)) at 1 by lia. apply Z.pow_succ_r; lia. }
  set (P := 2 ^ (t - 1)) in *. rewrite HT in *.
  set (K := (2 * s + c) / (2 * c)).
  pose proof (Z.div_mod (2 * s + c) (2 * c) ltac:(lia)) as Hdm.
  pose proof (Z.mod_pos_bound (2 * s + c) (2 * c) ltac:(lia)) as Hmb.
  fold K in Hdm.
  assert (HK : 2 * c * K <= 2 * s + c < 2 * c * K + 2 * c) by lia.
  pose proof (nearest_round_aux m s c P K Hm Hs Hc ltac:(cbn in HP; lia) Hnear HK) as Hres.
  symmetry. apply Z.div_unique with (m + P - 2 * P * K); lia.
Qed.

Lemma normalized_bounds (n : Z) :
  0 < n < 2 ^ 24 -> 2 ^ 23 <= n * 2 ^ (24 - Zdigits2 n) < 2 ^ 24.
Proof.
  intros Hn. pose proof (Zdigits2_bounds n ltac:(lia)) as Hb.
  pose proof (Zdigits2_pos n ltac:(lia)) as Hp.
  assert (Hd : Zdigits2 n <= 24) by (apply Zdigits2_le; lia).
  set (d := Zdigits2 n) in *.
  assert (0 < 2 ^ (24 - d)) by (apply Z.pow_pos_nonneg; lia).
  assert (E1 : 2 ^ 23 = 2 ^ (d - 1) * 2 ^ (24 - d))
    by (rewrite <- pow2_split by lia; f_equal; lia).
  assert (E2 : 2 ^ 24 = 2 ^ d * 2 ^ (24 - d))
    by (rewrite <- pow2_split by lia; f_equal; lia).
  rewrite E1, E2. nia.
Qed.

Lemma round_mean_exact (s c : Z) :
  0 <= s <= 255 * c -> 1 <= c <= 2 ^ 16 ->
  round_mean s c = uchar_of_Z ((2 * s + c) / (2 * c)).
Proof.
  intros Hs Hc. change (2 ^ 16) with 65536 in Hc. unfold round_mean.
  rewrite (of_unsigned_small c) by (cbn; lia).
  destruct (Z.eq_dec s 0) as [->|Hnz].
  - rewrite Z.div_small by lia. reflexivity.
  - assert (Hs24 : 0 < s < 2 ^ 24) by (cbn; lia).
    assert (Hc24 : 0 < c < 2 ^ 24) by (cbn; lia).
    rewrite (of_unsigned_small s) by assumption.
    pose proof (normalized_bounds s Hs24) as Hm1.
    pose proof (normalized_bounds c Hc24) as Hm2.
    pose proof (Zdigits2_pos s ltac:(lia)) as Hds.
    pose proof (Zdigits2_pos c ltac:(lia)) as Hdc.
    assert (Hds' : Zdigits2 s <= 24) by (apply Zdigits2_le; lia).
    assert (Hdc' : Zdigits2 c <= 17) by (apply Zdigits2_le; cbn; lia).
    set (a := 24 - Zdigits2 s) in *. set (bb := 24 - Zdigits2 c) in *.
    replace (Zdigits2 s - 24) with (- a) by (unfold a; lia).
    replace (Zdigits2 c - 24) with (- bb) by (unfold bb; lia).
    destruct (div_normal (s * 2 ^ a) (- a) (c * 2 ^ bb) (- bb) Hm1 Hm2 ltac:(lia))
      as (m & e & Hdiv & Hmb & Heb & Hnear).
    rewrite Hdiv.
    set (j := e - (- a - - bb - 24)) in *.
    assert (Hj : 0 <= j <= 2) by (unfold j; lia).
    assert (HA : 0 < 2 ^ a) by (apply Z.pow_pos_nonneg; lia).
    assert (HQ : 0 < 2 ^ (j + bb)) by (apply Z.pow_pos_nonneg; lia).
    assert (HQe : 2 ^ j * (c * 2 ^ bb) = c * 2 ^ (j + bb))
      by (rewrite pow2_split by lia; ring).
    replace (m * 2 ^ j * (c * 2 ^ bb)) with (m * c * 2 ^ (j + bb)) in Hnear
      by (rewrite pow2_split by lia; ring).
    rewrite HQe in Hnear.
    assert (Hjb : j + bb <= a + 8).
    { destruct (Z.le_gt_cases (j + bb) (a + 8)) as [|Hgt]; [assumption|exfalso].
      assert (HW : 2 ^ (j + bb) = 2 ^ a * (512 * 2 ^ (j + bb - a - 9))).
      { change 512 with (2 ^ 9). rewrite <- !pow2_split by lia. f_equal. lia. }
      assert (HWp : 0 < 2 ^ (j + bb - a - 9)) by (apply Z.pow_pos_nonneg; lia).
      set (W := 2 ^ (j + bb - a - 9)) in *. rewrite HW in Hnear.
      change (2 ^ 24) with 16777216 in Hnear. change (2 ^ 23) with 8388608 in Hmb.
      assert (H1 : 2 ^ a * (512 * ((2 * m - 1) * c * W)) <= 2 ^ a * (512 * (65536 * s))) by lia.
      apply Z.mul_le_mono_pos_l in H1; [|assumption].
      apply Z.mul_le_mono_pos_l in H1; [|lia].
      replace ((2 * m - 1) * c * W) with (c * ((2 * m - 1) * W)) in H1 by ring.
      assert (H3 : c * ((2 * m - 1) * W) <= c * 16711680) by lia.
      apply Z.mul_le_mono_pos_l in H3; [|lia].
      assert (H4 : 16777215 * 1 <= (2 * m - 1) * W)
        by (apply Z.mul_le_mono_nonneg; lia).
      lia. }
    set (t := a + 24 - bb - j).
    assert (Ht : 16 <= t) by (unfold t; lia).
    assert (He : e = - t) by (unfold t, j; lia).
    assert (HT : 2 ^ a * 2 ^ 24 = 2 ^ t * 2 ^ (j + bb)).
    { rewrite <- !pow2_split by lia. f_equal. unfold t. lia. }
    assert (Hnear' : Z.abs (2 * (m * c - s * 2 ^ t)) <= c).
    { replace (s * 2 ^ a * 2 ^ 24) with (s * 2 ^ t * 2 ^ (j + bb)) in Hnear
        by (rewrite <- (Z.mul_assoc s (2 ^ a)), HT; ring).
      replace (2 * (m * c * 2 ^ (j + bb) - s * 2 ^ t * 2 ^ (j + bb)))
        with (2 * (m * c - s * 2 ^ t) * 2 ^ (j + bb)) in Hnear by ring.
      rewrite Z.abs_mul, (Z.abs_eq (2 ^ (j + bb))) in Hnear by lia.
      apply Z.mul_le_mono_pos_r in Hnear; assumption. }
    rewrite He.
    rewrite ROUND_normal by (unfold t; lia).
    replace (- - t) with t by lia. replace (t - 1) with (t - 1) by lia.
    rewrite (nearest_round m s c t) by lia. reflexivity.
Qed.

(** ** Conversions of large integers and uniform quotients *)

(** Conversion of any nonzero [size_t] or [unsigned int] value: the result
    is a normal number within a relative error of [2^-24]; both sides are
    scaled by [2^23] to stay in the integers. *)
Lemma of_unsigned_finite (n : Z) :
  0 < n < 2 ^ 64 ->
  exists m e,
    Float.of_unsigned n = S754_finite false (Z.to_pos m) e /\
    2 ^ 23 <= m < 2 ^ 24 /\ -23 <= e <= 41 /\
    Z.abs (m * 2 ^ (e + 23) - n * 2 ^ 23) * 2 ^ 24 <= m * 2 ^ (e + 23).
Proof.
  intros Hn.
  destruct (Z.lt_ge_cases n (2 ^ 24)) as [Hsmall|Hlarge].
  - pose proof (normalized_bounds n ltac:(lia)) as Hm.
    pose proof (Zdigits2_pos n ltac:(lia)) as Hd.
    assert (Hd' : Zdigits2 n <= 24) by (apply Zdigits2_le; lia).
    exists (n * 2 ^ (24 - Zdigits2 n)), (Zdigits2 n - 24).
    split; [apply of_unsigned_small; lia|]. split; [exact Hm|]. split; [lia|].
    replace (n * 2 ^ (24 - Zdigits2 n) * 2 ^ (Zdigits2 n - 24 + 23))
      with (n * 2 ^ 23).
    + rewrite Z.sub_diag. cbn [Z.abs Z.mul]. lia.
    + rewrite <- Z.mul_assoc, <- pow2_split by lia. do 2 f_equal. lia.
  - destruct n as [|p|p]; try lia.
    unfold Float.of_unsigned, binary_normalize, binary_round.
    change (Zpos (digits2_pos p)) with (Zdigits2 (Zpos p)).
    assert (Hd : 25 <= Zdigits2 (Zpos p) <= 64).
    { split; [apply Zdigits2_ge|apply Zdigits2_le]; lia. }
    set (k := Zdigits2 (Zpos p) - 24).
    replace (fexp Float.prec32 Float.emax32 (Zdigits2 (Zpos p) + 0)) with k
      by (unfold fexp, emin, Float.prec32, Float.emax32, k; lia).
    rewrite shl_align_spec. destruct (Z.ltb_spec k 0); [unfold k in *; lia|].
    change loc_Exact with (loc_of 0 1).
    rewrite (binary_round_aux_spec Float.prec32 Float.emax32 ltac:(reflexivity));
      unfold Float.prec32, Float.emax32, emin; try lia.
    cbv zeta. fold k. rewrite Z.add_0_l.
    assert (Hk : 0 < 2 ^ k) by (apply Z.pow_pos_nonneg; unfold k; lia).
    pose proof (shifted_mantissa_bounds 24 ltac:(lia) (Zpos p) ltac:(lia) ltac:(lia)) as Hms.
    fold k in Hms.
    pose proof (Z.mod_pos_bound (Zpos p) (2 ^ k) Hk) as Hmod.
    pose proof (Z.div_mod (Zpos p) (2 ^ k) ltac:(lia)) as Hdm.
    assert (Hn' : 0 <= (Zpos p mod 2 ^ k) * 1 + 0 < 2 ^ k * 1) by lia.
    pose proof (round_nearest_even_loc (Zpos p / 2 ^ k) _ _ Hn') as (Hm' & Hnear & _).
    set (m' := round_nearest_even _ _) in *. cbv zeta in Hnear.
    replace (Zpos p / 2 ^ k * (2 ^ k * 1) + (Zpos p mod 2 ^ k * 1 + 0))
      with (Zpos p) in Hnear by lia.
    rewrite Z.mul_1_r in Hnear.
    assert (H23 : 2 ^ (k + 23) = 2 ^ k * 2 ^ 23) by (apply pow2_split; unfold k; lia).
    assert (H24 : 2 ^ (k + 1 + 23) = 2 * (2 ^ k * 2 ^ 23)).
    { replace (k + 1 + 23) with (Z.succ (k + 23)) by lia.
      rewrite Z.pow_succ_r, H23 by (unfold k; lia). reflexivity. }
    change (2 ^ 23) with 8388608 in *. change (2 ^ 24) with 16777216 in *.
    destruct (Z.eqb_spec m' 16777216) as [Heq|Hne].
    + exists 8388608, (k + 1). split; [reflexivity|]. split; [lia|].
      split; [unfold k; lia|]. rewrite H24.
      replace (8388608 * (2 * (2 ^ k * 8388608)) - Zpos p * 8388608)
        with ((m' * 2 ^ k - Zpos p) * 8388608) by (rewrite Heq; ring).
      rewrite Z.abs_mul. change (Z.abs 8388608) with 8388608.
      assert (Z.abs (m' * 2 ^ k - Zpos p) * 2 <= 2 ^ k) by lia. nia.
    + exists m', k. split; [reflexivity|]. split; [lia|].
      split; [unfold k; lia|]. rewrite H23.
      replace (m' * (2 ^ k * 8388608) - Zpos p * 8388608)
        with ((m' * 2 ^ k - Zpos p) * 8388608) by ring.
      rewrite Z.abs_mul. change (Z.abs 8388608) with 8388608.
      assert (Z.abs (m' * 2 ^ k - Zpos p) * 2 <= 2 ^ k) by lia. nia.
Qed.

(** The quotient of two numbers that are within [2^-24] of [v * c] and
    [c], rounded to nearest, is within one half of [v].  [P] / [H] is the
    quotient, [S] and [C] are the operands and [cs] is [c], all scaled to
    integers. *)
Lemma uniform_quotient_bounds (v mG G H S C cs : Z) :
  1 <= v <= 255 -> 0 < G -> 0 < H -> 0 < S -> 0 < C -> 0 < cs ->
  16777216 * G <= 2 * mG ->
  Z.abs (S - v * cs) * 16777216 <= S ->
  Z.abs (C - cs) * 16777216 <= C ->
  Z.abs (2 * (mG * C - S * H)) <= G * C ->
  (2 * v - 1) * H <= 2 * mG < (2 * v + 1) * H.
Proof.
  intros Hv HG HH HS HC Hcs Hm Ha Hb Hc.
  assert (HGC : 16777216 * (G * C) <= 2 * (mG * C)) by nia.
  assert (HSH : 0 < S * H) by nia.
  assert (HmGC : 0 < mG * C) by nia.
  set (X := mG * C) in *. set (Y := S * H) in *. set (GC := G * C) in *.
  assert (U1 : 16777215 * (2 * X) <= 2 * 16777216 * Y) by lia.
  assert (L1 : 2 * 16777216 * Y <= 16777217 * (2 * X)) by lia.
  assert (U2 : 16777215 * S <= 16777216 * (v * cs)) by lia.
  assert (L2 : 16777216 * (v * cs) <= 16777217 * S) by lia.
  assert (U3 : 16777216 * cs <= 16777217 * C) by lia.
  assert (L3 : 16777215 * C <= 16777216 * cs) by lia.
  clear Ha Hb Hc HGC Hm.
  assert (U2H : 16777215 * Y <= 16777216 * (v * (cs * H))).
  { unfold Y. replace (16777215 * (S * H)) with (16777215 * S * H) by ring.
    replace (16777216 * (v * (cs * H))) with (16777216 * (v * cs) * H) by ring.
    apply Z.mul_le_mono_nonneg_r; lia. }
  assert (L2H : 16777216 * (v * (cs * H)) <= 16777217 * Y).
  { unfold Y. replace (16777217 * (S * H)) with (16777217 * S * H) by ring.
    replace (16777216 * (v * (cs * H))) with (16777216 * (v * cs) * H) by ring.
    apply Z.mul_le_mono_nonneg_r; lia. }
  assert (U3H : 16777216 * (v * (cs * H)) <= 16777217 * (v * (C * H))).
  { replace (16777216 * (v * (cs * H))) with (16777216 * cs * (v * H)) by ring.
    replace (16777217 * (v * (C * H))) with (16777217 * C * (v * H)) by ring.
    apply Z.mul_le_mono_nonneg_r; nia. }
  assert (L3H : 16777215 * (v * (C * H)) <= 16777216 * (v * (cs * H))).
  { replace (16777216 * (v * (cs * H))) with (16777216 * cs * (v * H)) by ring.
    replace (16777215 * (v * (C * H))) with (16777215 * C * (v * H)) by ring.
    apply Z.mul_le_mono_nonneg_r; nia. }
  set (W := v * (cs * H)) in *. set (CH := C * H) in *.
  (* X is within a factor (1 +- 2^-24)^3 of v * C * H *)
  assert (UX : 16777215 * 16777215 * 16777216 * (2 * X) <= 2 * 16777216 * 16777216 * 16777217 * (v * CH)) by lia.
  assert (LX : 2 * 16777216 * 16777215 * 16777215 * (v * CH) <= 16777217 * 16777217 * 16777216 * (2 * X)) by lia.
  clear U1 L1 U2 L2 U3 L3 U2H L2H U3H L3H.
  split.
  - destruct (Z.le_gt_cases ((2 * v - 1) * H) (2 * mG)) as [|Hgt]; [assumption|exfalso].
    assert (Hx : 2 * X + C <= (2 * v - 1) * CH).
    { unfold X, CH. replace ((2 * v - 1) * (C * H)) with ((2 * v - 1) * H * C) by ring.
      replace (2 * (mG * C) + C) with ((2 * mG + 1) * C) by ring.
      apply Z.mul_le_mono_nonneg_r; lia. }
    assert (0 < CH) by (unfold CH; nia).
    assert (HvCH : v * CH <= 255 * CH) by nia.
    set (V := v * CH) in *. lia.
  - destruct (Z.lt_ge_cases (2 * mG) ((2 * v + 1) * H)) as [|Hge]; [assumption|exfalso].
    assert (Hx : (2 * v + 1) * CH <= 2 * X).
    { unfold X, CH. replace ((2 * v + 1) * (C * H)) with ((2 * v + 1) * H * C) by ring.
      replace (2 * (mG * C)) with (2 * mG * C) by ring.
      apply Z.mul_le_mono_nonneg_r; lia. }
    assert (0 < CH) by (unfold CH; nia).
    assert (HvCH : v * CH <= 255 * CH) by nia.
    set (V := v * CH) in *. lia.
Qed.

(** The stored channel of a window all of whose pixels have the value [v]:
    the accumulator holds [v * count] when it does not overflow, and the
    rounded quotient is [v] again. *)
Lemma round_mean_uniform (v c : Z) :
  0 <= v <= 255 -> 1 <= c < 2 ^ 64 -> v * c < 2 ^ 32 ->
  round_mean (v * c) c = uchar_of_Z v.
Proof.
  intros Hv Hc Hvc. unfold round_mean.
  destruct (of_unsigned_finite c ltac:(lia)) as (mc & ec & Hcf & Hmcb & Hecb & Hca).
  rewrite Hcf.
  destruct (Z.eq_dec v 0) as [->|Hnz]; [reflexivity|].
  assert (Hc32 : c < 2 ^ 32) by nia.
  destruct (of_unsigned_finite (v * c)) as (ms & es & Hsf & Hmsb & Hesb & Hsa);
    [change (2 ^ 32) with 4294967296 in *; change (2 ^ 64) with 18446744073709551616; nia|].
  rewrite Hsf.
  destruct (div_normal ms es mc ec Hmsb Hmcb ltac:(lia)) as (m & e & Hdiv & Hmb & Heb & Hnear).
  rewrite Hdiv.
  set (j := e - (es - ec - 24)) in *.
  assert (Hj : 0 <= j <= 2) by (unfold j; lia).
  set (G := 2 ^ (j + es + 23)). set (H := 2 ^ (ec + 47)).
  assert (HG : 0 < G) by (apply Z.pow_pos_nonneg; lia).
  assert (HH : 0 < H) by (apply Z.pow_pos_nonneg; lia).
  assert (HGe : G = 2 ^ j * 2 ^ (es + 23))
    by (unfold G; rewrite <- pow2_split by lia; f_equal; lia).
  assert (HHe : H = 2 ^ 24 * 2 ^ (ec + 23))
    by (unfold H; rewrite <- pow2_split by lia; f_equal; lia).
  assert (HTs : 0 < 2 ^ (es + 23)) by (apply Z.pow_pos_nonneg; lia).
  assert (HTc : 0 < 2 ^ (ec + 23)) by (apply Z.pow_pos_nonneg; lia).
  assert (Hc' : Z.abs (2 * (m * G * (mc * 2 ^ (ec + 23)) - ms * 2 ^ (es + 23) * H))
                <= G * (mc * 2 ^ (ec + 23))).
  { replace (2 * (m * G * (mc * 2 ^ (ec + 23)) - ms * 2 ^ (es + 23) * H))
      with (2 * (m * 2 ^ j * mc - ms * 2 ^ 24) * (2 ^ (es + 23) * 2 ^ (ec + 23)))
      by (rewrite HGe, HHe; ring).
    replace (G * (mc * 2 ^ (ec + 23)))
      with (2 ^ j * mc * (2 ^ (es + 23) * 2 ^ (ec + 23))) by (rewrite HGe; ring).
    assert (0 < 2 ^ (es + 23) * 2 ^ (ec + 23)) by (apply Z.mul_pos_pos; assumption).
    rewrite Z.abs_mul, (Z.abs_eq (2 ^ (es + 23) * 2 ^ (ec + 23))) by lia.
    apply Z.mul_le_mono_nonneg_r; [lia|exact Hnear]. }
  replace (v * c * 2 ^ 23) with (v * (c * 2 ^ 23)) in Hsa by ring.
  change (2 ^ 24) with 16777216 in Hsa, Hca, Hmb, Hmsb, Hmcb.
  change (2 ^ 23) with 8388608 in Hsa, Hca, Hmb, Hmsb, Hmcb.
  assert (Hbounds : (2 * v - 1) * H <= 2 * (m * G) < (2 * v + 1) * H).
  { apply (uniform_quotient_bounds v (m * G) G H (ms * 2 ^ (es + 23))
             (mc * 2 ^ (ec + 23)) (c * 8388608)).
    - lia.
    - exact HG.
    - exact HH.
    - apply Z.mul_pos_pos; lia.
    - apply Z.mul_pos_pos; lia.
    - lia.
    - replace (2 * (m * G)) with (2 * m * G) by ring.
      apply Z.mul_le_mono_nonneg_r; lia.
    - exact Hsa.
    - exact Hca.
    - exact Hc'. }
  set (t := ec + 24 - j - es).
  assert (Ht : 16 <= t <= 24).
  { split.
    - destruct (Z.le_gt_cases 16 t) as [|Hlt]; [assumption|exfalso].
      assert (HHG : H <= G * 2 ^ 15).
      { unfold H, G. rewrite <- pow2_split by lia.
        apply Z.pow_le_mono_r; unfold t in Hlt; lia. }
      change (2 ^ 15) with 32768 in HHG.
      assert (16777216 * G <= 2 * m * G) by (apply Z.mul_le_mono_nonneg_r; lia).
      assert ((2 * v + 1) * H <= 511 * H) by (apply Z.mul_le_mono_nonneg_r; lia). lia.
    - destruct (Z.le_gt_cases t 24) as [|Hgt]; [assumption|exfalso].
      assert (HHG : G * 2 ^ 25 <= H).
      { unfold H, G. rewrite <- pow2_split by lia.
        apply Z.pow_le_mono_r; unfold t in Hgt; lia. }
      change (2 ^ 25) with 33554432 in HHG.
      assert (2 * m * G < 33554432 * G) by (apply Z.mul_lt_mono_pos_r; lia).
      assert (1 * H <= (2 * v - 1) * H) by (apply Z.mul_le_mono_nonneg_r; lia). lia. }
  assert (He : e = - t) by (unfold t, j; lia).
  assert (HHt : H = G * (2 * 2 ^ (t - 1))).
  { unfold H, G. rewrite <- (Z.pow_succ_r 2 (t - 1)), <- pow2_split by lia.
    f_equal. unfold t. lia. }
  assert (HP : 0 < 2 ^ (t - 1)) by (apply Z.pow_pos_nonneg; lia).
  set (P := 2 ^ (t - 1)) in *.
  assert (Hm : (2 * v - 1) * P <= m < (2 * v + 1) * P).
  { rewrite HHt in Hbounds. destruct Hbounds as [Hlo Hhi]. split.
    - assert (G * ((2 * v - 1) * P) <= G * m) by lia.
      apply Z.mul_le_mono_pos_l in H0; assumption.
    - assert (G * m < G * ((2 * v + 1) * P)) by lia.
      apply Z.mul_lt_mono_pos_l in H0; assumption. }
  rewrite He, ROUND_normal by (change (2 ^ 24) with 16777216; change (2 ^ 23) with 8388608; lia).
  f_equal. replace (- - t) with t by lia. replace (- - t - 1) with (t - 1) by lia.
  fold P. replace (2 ^ t) with (2 * P).
  - symmetry. apply Z.div_unique with (m + P - 2 * P * v); lia.
  - unfold P. rewrite <- Z.pow_succ_r by lia. f_equal. lia.
Qed.

(** ** Machine integers and bytes *)

Lemma size_t_small (z : Z) : 0 <= z < 2 ^ 64 -> size_t z = z.
Proof. intros H. unfold size_t, SIZE_WIDTH. apply Z.mod_small. exact H. Qed.

Lemma uint_small (z : Z) : 0 <= z < 2 ^ 32 -> uint z = z.
Proof. intros H. unfold uint, UINT_WIDTH. apply Z.mod_small. exact H. Qed.

Lemma uint_add_idemp (x y : Z) : uint (uint x + y) = uint (x + y).
Proof. unfold uint. apply Z.add_mod_idemp_l. unfold UINT_WIDTH. lia. Qed.

Lemma uchar_val_range (c : byte) : 0 <= uchar_val c <= 255.
Proof. destruct c; cbv; split; discriminate. Qed.

Lemma uchar_of_val (c : byte) : uchar_of_Z (uchar_val c) = c.
Proof. destruct c; reflexivity. Qed.

Lemma uchar_val_of_Z (z : Z) : uchar_val (uchar_of_Z z) = z mod 256.
Proof.
  unfold uchar_of_Z, uchar_val.
  pose proof (Z.mod_pos_bound z 256 ltac:(lia)) as Hb.
  destruct (Byte.of_N (Z.to_N (z mod 256))) as [c|] eqn:E.
  - apply Byte.to_of_N in E. rewrite E. lia.
  - apply Byte.of_N_None_iff in E. lia.
Qed.

(** ** Loops *)

Lemma iterate_fold {T : Type} (n : nat) (k : Z) (body : Z -> T -> T) (s : T) :
  iterate n k body s = fold_left (fun acc x => body x acc) (seqZ k (Z.of_nat n)) s.
Proof.
  revert k s. induction n as [|n IH]; intros k s.
  - reflexivity.
  - rewrite seqZ_cons by lia. cbn [iterate fold_left]. rewrite IH.
    do 2 f_equal; lia.
Qed.

Lemma for_lt_fold {T : Type} (lo hi : Z) (body : Z -> T -> T) (s : T) :
  for_lt lo hi body s = fold_left (fun acc x => body x acc) (seqZ lo (hi - lo)) s.
Proof.
  unfold for_lt. rewrite iterate_fold.
  destruct (Z.le_gt_cases (hi - lo) 0).
  - rewrite (seqZ_nil lo (hi - lo)) by lia. rewrite seqZ_nil by lia. reflexivity.
  - rewrite Z2Nat.id by lia. reflexivity.
Qed.

Lemma for_le_fold {T : Type} (lo hi : Z) (body : Z -> T -> T) (s : T) :
  for_le lo hi body s = fold_left (fun acc x => body x acc) (seqZ lo (hi + 1 - lo)) s.
Proof. apply (for_lt_fold lo (hi + 1)). Qed.

Lemma fold_left_bind {A B T : Type} (f : A -> list B) (step : T -> B -> T)
    (l : list A) (s : T) :
  fold_left step (l ≫= f) s = fold_left (fun acc x => fold_left step (f x) acc) l s.
Proof.
  revert s. induction l as [|x l IH]; intros s; [reflexivity|].
  cbn [mbind list_bind]. change (fold_left step (f x ++ (l ≫= f)) s = fold_left (fun acc x => fold_left step (f x) acc) (x :: l) s).
  rewrite fold_left_app. cbn [fold_left]. apply IH.
Qed.

Lemma fold_left_fmap {A B T : Type} (f : A -> B) (step : T -> B -> T)
    (l : list A) (s : T) :
  fold_left step (f <$> l) s = fold_left (fun acc x => step acc (f x)) l s.
Proof. revert s. induction l as [|x l IH]; intros s; [reflexivity|]. cbn. apply IH. Qed.

Lemma fold_left_ext {A T : Type} (f1 f2 : T -> A -> T) (l : list A) (s : T) :
  (forall acc x, f1 acc x = f2 acc x) -> fold_left f1 l s = fold_left f2 l s.
Proof.
  intros H. revert s. induction l as [|x l IH]; intros s; [reflexivity|].
  cbn. rewrite H. apply IH.
Qed.

Lemma kernel_run_iterations (bmp : list RgbPixel) (width height radius : Z)
    (result : list RgbPixel) :
  processImageSmoothFilter bmp width height radius result =
  run_iterations bmp width height radius (all_iterations width height) result.
Proof.
  unfold processImageSmoothFilter, run_iterations, all_iterations.
  rewrite for_lt_fold, fold_left_bind, Z.sub_0_r.
  apply fold_left_ext. intros acc i.
  unfold row_iterations. rewrite for_lt_fold, fold_left_fmap, Z.sub_0_r.
  reflexivity.
Qed.

(** ** Index arithmetic *)

Lemma position_in_bounds (width height i j : Z) :
  0 <= i < height -> 0 <= j < width -> width * height < 2 ^ 64 ->
  size_t (size_t (i * width) + j) = i * width + j /\
  0 <= i * width + j < width * height.
Proof.
  intros Hi Hj Hwh.
  assert (Hb : 0 <= i * width + j < width * height) by nia.
  assert (Hb' : 0 <= i * width < 2 ^ 64) by nia.
  rewrite (size_t_small (i * width)) by lia.
  rewrite size_t_small by lia. auto.
Qed.

Lemma window_start_clip (i radius : Z) :
  window_start i radius = clip_lo i radius.
Proof. unfold window_start, clip_lo. destruct (Z.ltb_spec i radius); lia. Qed.

(** The upper bound of a window stays inside the image whatever the
    radius, so that the loops [ii <= endi] and [jj <= endj] end. *)
Lemma window_end_bound (i radius n : Z) :
  0 <= i < n -> n < 2 ^ 64 ->
  0 <= window_end i radius n <= n - 1.
Proof.
  intros Hi Hn. unfold window_end.
  assert (Hm : 0 <= size_t (i + radius) < 2 ^ 64)
    by (apply Z.mod_pos_bound; unfold SIZE_WIDTH; lia).
  destruct (Z.geb_spec (size_t (i + radius)) n) as [Hge|Hlt].
  - rewrite size_t_small by lia. lia.
  - lia.
Qed.

Lemma window_end_clip (i radius n : Z) :
  0 <= i < n -> n < 2 ^ 64 -> 0 <= radius -> i + radius < 2 ^ 64 ->
  window_end i radius n = clip_hi i radius n.
Proof.
  intros Hi Hn Hr Hir. unfold window_end, clip_hi.
  rewrite (size_t_small (i + radius)) by lia.
  rewrite (size_t_small (n - 1)) by lia.
  destruct (Z.geb_spec (i + radius) n); lia.
Qed.

(** ** The sums over a window *)

Lemma window_sum_fold (bmp : list RgbPixel) (width starti endi startj endj : Z) :
  window_sum bmp width starti endi startj endj =
  fold_left (fun a c => accumulate bmp width c.1 c.2 a)
    (rectangle starti endi startj endj) (mkAcc 0 0 0).
Proof.
  unfold window_sum, rectangle.
  rewrite for_le_fold, fold_left_bind.
  apply fold_left_ext. intros a ii.
  rewrite for_le_fold, fold_left_fmap. reflexivity.
Qed.

Lemma elem_of_rectangle (lo_i hi_i lo_j hi_j ii jj : Z) :
  (ii, jj) ∈ rectangle lo_i hi_i lo_j hi_j <->
  lo_i <= ii <= hi_i /\ lo_j <= jj <= hi_j.
Proof.
  unfold rectangle. rewrite list_elem_of_bind. split.
  - intros (x & Hin & Hx). apply elem_of_seqZ in Hx.
    apply list_elem_of_fmap in Hin as (y & Heq & Hy). apply elem_of_seqZ in Hy.
    inversion Heq; subst. lia.
  - intros [Hi Hj]. exists ii. split.
    + apply list_elem_of_fmap. exists jj. split; [reflexivity|].
      apply elem_of_seqZ. lia.
    + apply elem_of_seqZ. lia.
Qed.

Lemma length_rectangle (lo_i hi_i lo_j hi_j : Z) :
  lo_i <= hi_i + 1 -> lo_j <= hi_j + 1 ->
  Z.of_nat (length (rectangle lo_i hi_i lo_j hi_j)) =
  (hi_i + 1 - lo_i) * (hi_j + 1 - lo_j).
Proof.
  intros Hi Hj. unfold rectangle.
  assert (Hgen : forall l : list Z,
    Z.of_nat (length (l ≫= fun ii => (fun jj => (ii, jj)) <$> seqZ lo_j (hi_j + 1 - lo_j)))
    = Z.of_nat (length l) * (hi_j + 1 - lo_j)).
  { induction l as [|x l IH]; [reflexivity|].
    cbn [mbind list_bind]. 
    change (Z.of_nat (length (((fun jj => (x, jj)) <$> seqZ lo_j (hi_j + 1 - lo_j)) ++
       (l ≫= fun ii => (fun jj => (ii, jj)) <$> seqZ lo_j (hi_j + 1 - lo_j)))) = 
       Z.of_nat (length (x :: l)) * (hi_j + 1 - lo_j)).
    rewrite length_app, Nat2Z.inj_add, IH, length_fmap, length_seqZ.
    change (length (x :: l)) with (S (length l)).
    rewrite Nat2Z.inj_succ, Z2Nat.id by lia. lia. }
  rewrite Hgen, length_seqZ, Z2Nat.id by lia. reflexivity.
Qed.

Lemma Zsum_app (l1 l2 : list Z) : Zsum (l1 ++ l2) = Zsum l1 + Zsum l2.
Proof. unfold Zsum. induction l1 as [|x l1 IH]; cbn; [reflexivity|]. cbn in IH. lia. Qed.

Lemma channel_sum_cons (chan : RgbPixel -> byte) (bmp : list RgbPixel) (width : Z)
    (c : Z * Z) (cells : list (Z * Z)) :
  channel_sum chan bmp width (c :: cells) =
  uchar_val (chan (pixel_at bmp (c.1 * width + c.2))) + channel_sum chan bmp width cells.
Proof. reflexivity. Qed.

Lemma channel_sum_bound (chan : RgbPixel -> byte) (bmp : list RgbPixel) (width : Z)
    (cells : list (Z * Z)) :
  0 <= channel_sum chan bmp width cells <= 255 * Z.of_nat (length cells).
Proof.
  induction cells as [|c cells IH].
  - cbn. lia.
  - rewrite channel_sum_cons. cbn [length].
    pose proof (uchar_val_range (chan (pixel_at bmp (c.1 * width + c.2)))). lia.
Qed.

(** The accumulators hold the channel sums modulo [2^32]. *)
Lemma accumulate_cells (bmp : list RgbPixel) (width : Z) (cells : list (Z * Z)) :
  Forall (fun c => size_t (size_t (c.1 * width) + c.2) = c.1 * width + c.2) cells ->
  forall x y z,
  fold_left (fun a c => accumulate bmp width c.1 c.2 a) cells
    (mkAcc (uint x) (uint y) (uint z)) =
  mkAcc (uint (x + channel_sum r bmp width cells))
        (uint (y + channel_sum g bmp width cells))
        (uint (z + channel_sum b bmp width cells)).
Proof.
  induction 1 as [|c cells Hc _ IH]; intros x y z.
  - cbn. rewrite !Z.add_0_r. reflexivity.
  - cbn [fold_left]. unfold accumulate at 2. cbn [acc_r acc_g acc_b].
    rewrite Hc, !uint_add_idemp, IH, !channel_sum_cons.
    f_equal; f_equal; lia.
Qed.

Lemma window_sum_spec (bmp : list RgbPixel) (width height lo_i hi_i lo_j hi_j : Z) :
  width * height < 2 ^ 64 ->
  0 <= lo_i -> hi_i < height -> 0 <= lo_j -> hi_j < width ->
  let cells := rectangle lo_i hi_i lo_j hi_j in
  window_sum bmp width lo_i hi_i lo_j hi_j =
  mkAcc (uint (channel_sum r bmp width cells))
        (uint (channel_sum g bmp width cells))
        (uint (channel_sum b bmp width cells)).
Proof.
  intros Hwh Hli Hhi Hlj Hhj cells. rewrite window_sum_fold. fold cells.
  change (mkAcc 0 0 0) with (mkAcc (uint 0) (uint 0) (uint 0)).
  rewrite accumulate_cells; [reflexivity|].
  apply Forall_forall. intros [ii jj] Hin. apply elem_of_rectangle in Hin.
  cbn [fst snd]. apply (position_in_bounds width height); lia.
Qed.

Lemma clip_bounds (i radius n : Z) :
  0 <= i < n -> 0 <= radius ->
  0 <= clip_lo i radius <= i /\ i <= clip_hi i radius n < n.
Proof. unfold clip_lo, clip_hi. lia. Qed.

Lemma window_count_cells (width height radius i j : Z) :
  0 <= i < height -> 0 <= j < width -> width * height < 2 ^ 64 -> 0 <= radius ->
  window_count (clip_lo i radius) (clip_hi i radius height)
               (clip_lo j radius) (clip_hi j radius width)
  = Z.of_nat (length (window_cells width height radius i j)) /\
  1 <= Z.of_nat (length (window_cells width height radius i j)) <= width * height.
Proof.
  intros Hi Hj Hwh Hr.
  pose proof (clip_bounds i radius height Hi Hr) as Hci.
  pose proof (clip_bounds j radius width Hj Hr) as Hcj.
  unfold window_cells. rewrite length_rectangle by lia.
  set (li := clip_lo i radius) in *. set (hi := clip_hi i radius height) in *.
  set (lj := clip_lo j radius) in *. set (hj := clip_hi j radius width) in *.
  assert (Hprod : 1 <= (hi + 1 - li) * (hj + 1 - lj) <= width * height) by nia.
  split; [|exact Hprod].
  unfold window_count.
  rewrite (size_t_small (hi - li)) by nia.
  rewrite (size_t_small (hi - li + 1)) by nia.
  rewrite (size_t_small (hj - lj)) by nia.
  rewrite (size_t_small (hj - lj + 1)) by nia.
  rewrite size_t_small by nia. ring.
Qed.

(** Under the bounds of [round_mean_exact] the stored pixel is the mean
    over the clipped window. *)
Lemma smooth_pixel_mean (bmp : list RgbPixel) (width height radius i j : Z) :
  0 <= i < height -> 0 <= j < width ->
  height < 2 ^ 64 -> width < 2 ^ 64 -> width * height < 2 ^ 64 ->
  0 <= radius -> i + radius < 2 ^ 64 -> j + radius < 2 ^ 64 ->
  Z.of_nat (length (window_cells width height radius i j)) <= 2 ^ 16 ->
  smooth_pixel bmp width height radius i j =
  mean_pixel bmp width (window_cells width height radius i j).
Proof.
  intros Hi Hj Hh Hw Hwh Hr Hir Hjr Hcnt.
  pose proof (clip_bounds i radius height Hi Hr) as Hci.
  pose proof (clip_bounds j radius width Hj Hr) as Hcj.
  destruct (window_count_cells width height radius i j Hi Hj Hwh Hr) as [Hcount Hlen].
  unfold smooth_pixel, mean_pixel.
  rewrite !window_start_clip, !window_end_clip by lia.
  rewrite Hcount.
  rewrite (window_sum_spec bmp width height) by lia.
  fold (window_cells width height radius i j).
  set (cells := window_cells width height radius i j) in *.
  cbn [acc_r acc_g acc_b].
  pose proof (channel_sum_bound r bmp width cells) as Hbr.
  pose proof (channel_sum_bound g bmp width cells) as Hbg.
  pose proof (channel_sum_bound b bmp width cells) as Hbb.
  change (2 ^ 16) with 65536 in Hcnt.
  rewrite !uint_small by (change (2 ^ 32) with 4294967296; lia).
  rewrite !round_mean_exact by (change (2 ^ 16) with 65536; lia).
  reflexivity.
Qed.

(** ** The kernel in closed form *)

Lemma iterate_invariant {T : Type} (P : Z -> T -> Prop) (n : nat) (k : Z)
    (body : Z -> T -> T) (s : T) :
  P k s ->
  (forall x t, k <= x < k + Z.of_nat n -> P x t -> P (x + 1) (body x t)) ->
  P (k + Z.of_nat n) (iterate n k body s).
Proof.
  revert k s. induction n as [|n IH]; intros k s H0 Hstep.
  - cbn. rewrite Z.add_0_r. exact H0.
  - cbn [iterate]. replace (k + Z.of_nat (S n)) with ((k + 1) + Z.of_nat n) by lia.
    apply IH.
    + apply Hstep; [lia|exact H0].
    + intros x t Hx. apply Hstep. lia.
Qed.

Lemma insert_prefix {A : Type} (f : Z -> A) (n : Z) (l : list A) (x : A) :
  0 <= n < Z.of_nat (length l) -> x = f n ->
  <[Z.to_nat n := x]> ((f <$> seqZ 0 n) ++ drop (Z.to_nat n) l) =
  (f <$> seqZ 0 (n + 1)) ++ drop (Z.to_nat (n + 1)) l.
Proof.
  intros Hn ->.
  rewrite insert_app_r_alt by (rewrite length_fmap, length_seqZ; lia).
  rewrite length_fmap, length_seqZ, Nat.sub_diag.
  destruct (lookup_lt_is_Some_2 l (Z.to_nat n) ltac:(lia)) as [y Hy].
  rewrite (drop_S l y (Z.to_nat n) Hy). cbn [insert list_insert].
  rewrite seqZ_app by lia. rewrite fmap_app, <- app_assoc.
  rewrite Z.add_0_l. change (seqZ n 1) with [n]. cbn [fmap list_fmap app].
  replace (Z.to_nat (n + 1)) with (S (Z.to_nat n)) by lia. reflexivity.
Qed.

Lemma kernel_closed_form (bmp : list RgbPixel) (width height radius : Z)
    (result : list RgbPixel) :
  0 <= width -> 0 <= height -> width * height < 2 ^ 64 ->
  Z.of_nat (length result) = width * height ->
  processImageSmoothFilter bmp width height radius result =
  stored_pixel bmp width height radius <$> seqZ 0 (width * height).
Proof.
  intros Hw Hh Hwh Hlen. unfold processImageSmoothFilter, for_lt.
  set (P := fun (n : Z) (res : list RgbPixel) =>
    res = (stored_pixel bmp width height radius <$> seqZ 0 n) ++ drop (Z.to_nat n) result).
  assert (Hrows : P (0 + Z.of_nat (Z.to_nat (height - 0)) * width)
    (iterate (Z.to_nat (height - 0)) 0
       (fun i => iterate (Z.to_nat (width - 0)) 0
          (fun j => smooth_step bmp width height radius i j)) result)).
  { apply (iterate_invariant (fun i res => P (i * width) res)).
    - unfold P. reflexivity.
    - intros i res Hi HP.
      replace ((i + 1) * width) with (i * width + Z.of_nat (Z.to_nat (width - 0))) by lia.
      apply (iterate_invariant (fun j res => P (i * width + j) res)).
      + rewrite Z.add_0_r. exact HP.
      + intros j t Hj HPj. unfold P in *. subst t. unfold smooth_step.
        destruct (position_in_bounds width height i j ltac:(lia) ltac:(lia) Hwh) as [-> Hpos].
        replace (i * width + (j + 1)) with (i * width + j + 1) by lia.
        apply (insert_prefix (stored_pixel bmp width height radius)); [lia|].
        unfold stored_pixel.
        rewrite Z.div_add_l, Z.div_small, Z.add_0_r by lia.
        rewrite Z.add_comm, Z.mod_add, Z.mod_small by lia. reflexivity. }
  unfold P in Hrows. etransitivity; [exact Hrows|].
  replace (0 + Z.of_nat (Z.to_nat (height - 0)) * width) with (width * height) by lia.
  rewrite drop_ge by lia. apply app_nil_r.
Qed.

Lemma lookup_kernel (bmp : list RgbPixel) (width height radius : Z)
    (result : list RgbPixel) (i j : Z) :
  0 <= i < height -> 0 <= j < width -> width * height < 2 ^ 64 ->
  Z.of_nat (length result) = width * height ->
  processImageSmoothFilter bmp width height radius result !! Z.to_nat (i * width + j)
  = Some (smooth_pixel bmp width height radius i j).
Proof.
  intros Hi Hj Hwh Hlen.
  rewrite kernel_closed_form by lia.
  assert (Hpos : 0 <= i * width + j < width * height) by nia.
  rewrite list_lookup_fmap, lookup_seqZ_lt by lia. cbn [fmap option_fmap option_map].
  unfold stored_pixel. rewrite Z2Nat.id, Z.add_0_l by lia.
  rewrite Z.div_add_l, Z.div_small, Z.add_0_r by lia.
  rewrite Z.add_comm, Z.mod_add, Z.mod_small by lia. reflexivity.
Qed.

(** Every store of the kernel is inside the destination array. *)
Lemma writes_in_bounds (width height i j : Z) (result : list RgbPixel) :
  0 <= i < height -> 0 <= j < width -> width * height < 2 ^ 64 ->
  Z.of_nat (length result) = width * height ->
  (Z.to_nat (size_t (size_t (i * width) + j)) < length result)%nat.
Proof.
  intros Hi Hj Hwh Hlen.
  destruct (position_in_bounds width height i j Hi Hj Hwh) as [-> Hpos]. lia.
Qed.

(** Every read of the kernel is inside the source array, whatever the
    radius. *)
Lemma reads_in_bounds (bmp : list RgbPixel) (width height radius i j ii jj : Z) :
  image bmp width height ->
  0 <= i < height -> 0 <= j < width ->
  window_start i radius <= ii <= window_end i radius height ->
  window_start j radius <= jj <= window_end j radius width ->
  (Z.to_nat (size_t (size_t (ii * width) + jj)) < length bmp)%nat.
Proof.
  intros (Hw & Hh & Hwh & Hlen) Hi Hj Hii Hjj.
  pose proof (window_end_bound i radius height Hi ltac:(lia)).
  pose proof (window_end_bound j radius width Hj ltac:(lia)).
  assert (0 <= window_start i radius) by (rewrite window_start_clip; unfold clip_lo; lia).
  assert (0 <= window_start j radius) by (rewrite window_start_clip; unfold clip_lo; lia).
  destruct (position_in_bounds width height ii jj ltac:(lia) ltac:(lia) Hwh) as [-> Hpos].
  lia.
Qed.

(** ** Radius 0 *)

Lemma window_cells_radius_0 (width height i j : Z) :
  0 <= i < height -> 0 <= j < width ->
  window_cells width height 0 i j = [(i, j)].
Proof.
  intros Hi Hj. unfold window_cells, rectangle, clip_lo, clip_hi.
  replace (Z.max 0 (i - 0)) with i by lia. replace (Z.min (height - 1) (i + 0)) with i by lia.
  replace (Z.max 0 (j - 0)) with j by lia. replace (Z.min (width - 1) (j + 0)) with j by lia.
  replace (i + 1 - i) with 1 by lia. replace (j + 1 - j) with 1 by lia.
  reflexivity.
Qed.

Lemma round_half_up_1 (v : Z) : round_half_up v 1 = v.
Proof.
  unfold round_half_up. symmetry. apply Z.div_unique with 1; lia.
Qed.

Lemma mean_pixel_single (bmp : list RgbPixel) (width i j : Z) :
  mean_pixel bmp width [(i, j)] = pixel_at bmp (i * width + j).
Proof.
  unfold mean_pixel, channel_sum. cbn [length fmap list_fmap Zsum foldr fst snd].
  change (Z.of_nat 1) with 1.
  rewrite !Z.add_0_r, !round_half_up_1, !uchar_of_val.
  destruct (pixel_at bmp (i * width + j)); reflexivity.
Qed.

(** C2: with radius 0 the kernel copies the source: the destination
    equals the source array, pixel for pixel. *)
Theorem radius_0_identity (bmp result : list RgbPixel) (width height : Z) :
  image bmp width height ->
  Z.of_nat (length result) = width * height ->
  processImageSmoothFilter bmp width height 0 result = bmp.
Proof.
  intros (Hw & Hh & Hwh & Hlen) Hres.
  rewrite kernel_closed_form by lia.
  apply list_eq. intros n.
  destruct (Z.lt_ge_cases (Z.of_nat n) (width * height)) as [Hlt|Hge].
  - rewrite list_lookup_fmap, lookup_seqZ_lt by lia. cbn [fmap option_fmap option_map].
    rewrite Z.add_0_l. unfold stored_pixel.
    assert (Hwpos : 0 < width) by nia.
    pose proof (Z.mod_pos_bound (Z.of_nat n) width Hwpos) as Hm.
    pose proof (Z.div_mod (Z.of_nat n) width ltac:(lia)) as Hdm.
    assert (Hd : 0 <= Z.of_nat n / width < height).
    { split; [apply Z.div_pos; lia|]. apply Z.div_lt_upper_bound; lia. }
    rewrite smooth_pixel_mean; try lia.
    + rewrite window_cells_radius_0, mean_pixel_single by lia.
      unfold pixel_at.
      replace (Z.of_nat n / width * width + Z.of_nat n mod width) with (Z.of_nat n) by lia.
      rewrite Nat2Z.id.
      destruct (lookup_lt_is_Some_2 bmp n ltac:(lia)) as [p Hp]. rewrite Hp. reflexivity.
    + rewrite window_cells_radius_0 by lia. cbn. lia.
  - rewrite list_lookup_fmap, lookup_seqZ_ge by lia.
    rewrite lookup_ge_None_2 by lia. reflexivity.
Qed.

Lemma radius_0_identity_witness :
  processImageSmoothFilter corner_image 3 3 0 (replicate 9 zeroPixel) = corner_image.
Proof.
  apply radius_0_identity.
  - unfold image. vm_compute. intuition congruence.
  - reflexivity.
Defined.

(** ** The clipped window *)

(** C1, amended: when the index arithmetic does not wrap and the window
    has at most [2^16] pixels, the pixel stored at row [i], column [j] is
    the per-channel mean, rounded half up, over the window of rows
    [max(0, i-radius) .. min(height-1, i+radius)] and columns
    [max(0, j-radius) .. min(width-1, j+radius)]; every pixel of the
    window counts once and the divisor is the number of pixels of the
    window. *)
Theorem window_mean (bmp result : list RgbPixel) (width height radius i j : Z) :
  image bmp width height ->
  Z.of_nat (length result) = width * height ->
  0 <= i < height -> 0 <= j < width ->
  0 <= radius -> height + radius <= 2 ^ 64 -> width + radius <= 2 ^ 64 ->
  Z.of_nat (length (window_cells width height radius i j)) <= 2 ^ 16 ->
  Z.of_nat (length (window_cells width height radius i j)) =
    (clip_hi i radius height - clip_lo i radius + 1)
    * (clip_hi j radius width - clip_lo j radius + 1) /\
  processImageSmoothFilter bmp width height radius result !! Z.to_nat (i * width + j)
  = Some (mean_pixel bmp width (window_cells width height radius i j)).
Proof.
  intros (Hw & Hh & Hwh & Hlen) Hres Hi Hj Hr Hhr Hwr Hcnt. split.
  - pose proof (clip_bounds i radius height Hi Hr).
    pose proof (clip_bounds j radius width Hj Hr).
    unfold window_cells. rewrite length_rectangle by lia. ring.
  - rewrite lookup_kernel by lia. f_equal.
    apply smooth_pixel_mean; lia.
Qed.

Lemma window_mean_witness :
  Z.of_nat (length (window_cells 3 3 1 0 0)) = 4 /\
  processImageSmoothFilter corner_image 3 3 1 (replicate 9 zeroPixel) !! 0%nat
  = Some (gray 64).
Proof.
  destruct (window_mean corner_image (replicate 9 zeroPixel) 3 3 1 0 0) as [Hn Hp].
  - unfold image. vm_compute. intuition congruence.
  - reflexivity.
  - lia.
  - lia.
  - lia.
  - vm_compute. congruence.
  - vm_compute. congruence.
  - vm_compute. congruence.
  - split; [exact Hn | exact Hp].
Defined.

Lemma channel_sum_row (chan : RgbPixel -> byte) (bmp : list RgbPixel) :
  channel_sum chan bmp (Z.of_nat (length bmp))
    (rectangle 0 0 0 (Z.of_nat (length bmp) - 1))
  = Zsum ((fun p => uchar_val (chan p)) <$> bmp).
Proof.
  unfold channel_sum, rectangle. change (seqZ 0 (0 + 1 - 0)) with [0].
  rewrite bind_singleton, <- list_fmap_compose.
  replace (Z.of_nat (length bmp) - 1 + 1 - 0) with (Z.of_nat (length bmp)) by lia.
  f_equal. apply list_eq. intros n.
  rewrite list_lookup_fmap.
  destruct (Nat.lt_ge_cases n (length bmp)) as [Hlt|Hge].
  - rewrite lookup_seqZ_lt by lia. cbn [fmap option_fmap option_map compose fst snd].
    unfold pixel_at. rewrite Z.mul_0_l, !Z.add_0_l, Nat2Z.id.
    rewrite list_lookup_fmap.
    destruct (lookup_lt_is_Some_2 bmp n Hlt) as [p ->]. reflexivity.
  - rewrite lookup_seqZ_ge by lia. rewrite lookup_ge_None_2; [reflexivity|].
    rewrite length_fmap. lia.
Qed.

Lemma length_long_row : Z.of_nat (length long_row) = 65537.
Proof.
  unfold long_row. rewrite length_app, !length_replicate. lia.
Qed.

(** C1 as stated fails on a window of 65537 pixels: the binary32 quotient
    rounds to 128.5 and the kernel stores 129, while the mean rounds to
    128. *)
Lemma window_mean_counterexample :
  processImageSmoothFilter long_row 65537 1 65536
    (replicate (Z.to_nat 65537) zeroPixel) !! Z.to_nat (0 * 65537 + 0)
  = Some (gray 129) /\
  mean_pixel long_row 65537 (window_cells 65537 1 65536 0 0) = gray 128 /\
  processImageSmoothFilter long_row 65537 1 65536
    (replicate (Z.to_nat 65537) zeroPixel) !! Z.to_nat (0 * 65537 + 0)
  <> Some (mean_pixel long_row 65537 (window_cells 65537 1 65536 0 0)).
Proof.
  assert (Hcells : window_cells 65537 1 65536 0 0
                   = rectangle 0 0 0 (Z.of_nat (length long_row) - 1)).
  { rewrite length_long_row. reflexivity. }
  assert (Hsum : forall chan, chan (gray 129) = uchar_of_Z 129 ->
                 chan (gray 128) = uchar_of_Z 128 ->
                 channel_sum chan long_row 65537 (window_cells 65537 1 65536 0 0) = 8421504).
  { intros chan H1 H2. rewrite Hcells.
    rewrite <- length_long_row at 1. rewrite channel_sum_row.
    unfold long_row. rewrite fmap_app, !fmap_replicate, H1, H2.
    unfold Zsum. rewrite foldr_app.
    assert (Hrep : forall n v a, foldr Z.add a (replicate n v) = Z.of_nat n * v + a).
    { induction n as [|n IH]; intros v a; [cbn; lia|].
      cbn [replicate foldr]. rewrite IH. lia. }
    rewrite !Hrep. rewrite !Z2Nat.id by lia. reflexivity. }
  assert (Hcode : processImageSmoothFilter long_row 65537 1 65536
            (replicate (Z.to_nat 65537) zeroPixel) !! Z.to_nat (0 * 65537 + 0)
          = Some (gray 129)).
  { rewrite lookup_kernel; try lia.
    + apply (f_equal Some). unfold smooth_pixel.
      rewrite !window_start_clip, !window_end_clip by lia.
      rewrite (window_sum_spec long_row 65537 1) by (unfold clip_lo, clip_hi; lia).
      change (rectangle (clip_lo 0 65536) (clip_hi 0 65536 1)
                        (clip_lo 0 65536) (clip_hi 0 65536 65537))
        with (window_cells 65537 1 65536 0 0).
      rewrite !Hsum by reflexivity.
      vm_compute. reflexivity.
    + rewrite length_replicate. lia. }
  assert (Hmean : mean_pixel long_row 65537 (window_cells 65537 1 65536 0 0) = gray 128).
  { unfold mean_pixel. rewrite !Hsum by reflexivity.
    replace (Z.of_nat (length (window_cells 65537 1 65536 0 0))) with 65537.
    + vm_compute. reflexivity.
    + rewrite Hcells, length_rectangle, length_long_row by (rewrite ?length_long_row; lia).
      reflexivity. }
  split; [exact Hcode|]. split; [exact Hmean|].
  rewrite Hcode, Hmean. intros H. vm_compute in H. discriminate H.
Qed.

(** ** Rounding of the mean *)

Lemma round_half_up_range (acc count : Z) :
  1 <= count -> 0 <= acc <= 255 * count ->
  0 <= round_half_up acc count <= 255.
Proof.
  intros Hc Ha. unfold round_half_up. split.
  - apply Z.div_pos; lia.
  - apply Z.lt_succ_r. apply Z.div_lt_upper_bound; lia.
Qed.

(** C3, amended: for a window of at most [2^16] pixels, an output channel
    is the channel sum divided by the pixel count and rounded half up,
    [floor (x + 0.5)]; a mean of exactly [k + 0.5] gives [k + 1]. *)
Theorem round_mean_half_up (acc count : Z) :
  1 <= count <= 2 ^ 16 -> 0 <= acc <= 255 * count ->
  round_mean acc count = uchar_of_Z (round_half_up acc count) /\
  uchar_val (round_mean acc count) = round_half_up acc count /\
  (forall k, 2 * acc = (2 * k + 1) * count ->
             uchar_val (round_mean acc count) = k + 1).
Proof.
  intros Hc Ha.
  pose proof (round_mean_exact acc count Ha Hc) as Hrm.
  pose proof (round_half_up_range acc count ltac:(lia) Ha) as Hr.
  fold (round_half_up acc count) in Hrm.
  assert (Hv : uchar_val (round_mean acc count) = round_half_up acc count).
  { rewrite Hrm, uchar_val_of_Z. apply Z.mod_small. lia. }
  split; [exact Hrm|]. split; [exact Hv|].
  intros k Hk. rewrite Hv. unfold round_half_up.
  symmetry. apply Z.div_unique with 0; lia.
Qed.

Lemma round_mean_half_up_witness :
  uchar_val (round_mean 3 2) = 2 /\ uchar_val (round_mean 255 2) = 128.
Proof.
  destruct (round_mean_half_up 3 2) as (_ & _ & H1); [vm_compute; intuition congruence|lia|].
  destruct (round_mean_half_up 255 2) as (_ & _ & H2); [vm_compute; intuition congruence|lia|].
  split; [apply (H1 1); lia | apply (H2 127); lia].
Defined.

(** C3 as stated fails for a window of 257 x 257 pixels whose channel sum
    is 8487296: the mean is below 128.5 and rounds to 128, the binary32
    quotient is 128.5 and the stored channel is 129. *)
Lemma round_mean_half_up_counterexample :
  0 <= 8487296 <= 255 * (257 * 257) /\
  round_half_up 8487296 (257 * 257) = 128 /\
  uchar_val (round_mean 8487296 (257 * 257)) = 129 /\
  round_mean 8487296 (257 * 257) <> uchar_of_Z (round_half_up 8487296 (257 * 257)).
Proof.
  split; [lia|]. split; [reflexivity|]. split; [vm_compute; reflexivity|].
  vm_compute. discriminate.
Qed.

(** ** Stores of the kernel *)

Lemma store_positions_seq (width height : Z) :
  0 <= width -> 0 <= height -> width * height < 2 ^ 64 ->
  store_positions width height = seqZ 0 (width * height).
Proof.
  intros Hw Hh Hwh. unfold store_positions, for_lt.
  set (P := fun (n : Z) (trace : list Z) => trace = seqZ 0 n).
  assert (Hrows : P (0 + Z.of_nat (Z.to_nat (height - 0)) * width)
    (iterate (Z.to_nat (height - 0)) 0
       (fun i => iterate (Z.to_nat (width - 0)) 0
          (fun j trace => trace ++ [size_t (size_t (i * width) + j)])) [])).
  { apply (iterate_invariant (fun i trace => P (i * width) trace)).
    - reflexivity.
    - intros i trace Hi HP.
      replace ((i + 1) * width) with (i * width + Z.of_nat (Z.to_nat (width - 0))) by lia.
      apply (iterate_invariant (fun j trace => P (i * width + j) trace)).
      + rewrite Z.add_0_r. exact HP.
      + intros j t Hj HPj. unfold P in *. subst t.
        destruct (position_in_bounds width height i j ltac:(lia) ltac:(lia) Hwh) as [-> Hpos].
        replace (i * width + (j + 1)) with (i * width + j + 1) by lia.
        rewrite (seqZ_app 0 (i * width + j) 1) by lia.
        rewrite Z.add_0_l. reflexivity. }
  unfold P in Hrows. etransitivity; [exact Hrows|]. f_equal. lia.
Qed.

(** Storing [f p] at every position [p] of [0 .. n-1], in this order,
    into an array of [n] elements. *)
Lemma fold_stores_seqZ {A : Type} (f : Z -> A) (n : nat) (l : list A) :
  (n <= length l)%nat ->
  fold_left (fun res p => <[Z.to_nat p := f p]> res) (seqZ 0 (Z.of_nat n)) l
  = (f <$> seqZ 0 (Z.of_nat n)) ++ drop (Z.to_nat (Z.of_nat n)) l.
Proof.
  induction n as [|n IH]; intros Hn; [reflexivity|].
  replace (Z.of_nat (S n)) with (Z.of_nat n + 1) by lia.
  rewrite (seqZ_app 0 (Z.of_nat n) 1) at 1 by lia.
  rewrite fold_left_app, IH by lia. rewrite Z.add_0_l.
  change (seqZ (Z.of_nat n) 1) with [Z.of_nat n]. cbn [fold_left].
  apply insert_prefix; [lia|reflexivity].
Qed.

(** C10: the kernel is the sequence of its stores, one at each position
    of [store_positions], and these are the indices of the destination,
    each exactly once.  The kernel therefore keeps the length of the
    destination and leaves in every cell the pixel computed from the
    source, its result does not depend on the initial contents of the
    destination, and running it again (as the driver does 100 times) does
    not change the result. *)
Theorem destination_overwritten (bmp : list RgbPixel) (width height radius : Z)
    (result1 result2 : list RgbPixel) :
  0 <= width -> 0 <= height -> width * height < 2 ^ 64 ->
  Z.of_nat (length result1) = width * height ->
  Z.of_nat (length result2) = width * height ->
  processImageSmoothFilter bmp width height radius result1
  = fold_left (fun res p => <[Z.to_nat p := stored_pixel bmp width height radius p]> res)
      (store_positions width height) result1 /\
  store_positions width height = seqZ 0 (width * height) /\
  NoDup (store_positions width height) /\
  length (processImageSmoothFilter bmp width height radius result1) = length result1 /\
  (forall i j, 0 <= i < height -> 0 <= j < width ->
     processImageSmoothFilter bmp width height radius result1 !! Z.to_nat (i * width + j)
     = Some (smooth_pixel bmp width height radius i j)) /\
  processImageSmoothFilter bmp width height radius result1
  = processImageSmoothFilter bmp width height radius result2 /\
  for_lt 0 100 (fun _ res => processImageSmoothFilter bmp width height radius res) result1
  = processImageSmoothFilter bmp width height radius result1.
Proof.
  intros Hw Hh Hwh H1 H2.
  pose proof (store_positions_seq width height Hw Hh Hwh) as Hst.
  assert (Hn : 0 <= width * height) by (apply Z.mul_nonneg_nonneg; assumption).
  split.
  { rewrite Hst, kernel_closed_form by lia.
    pose proof (fold_stores_seqZ (stored_pixel bmp width height radius)
                  (Z.to_nat (width * height)) result1 ltac:(lia)) as Hfold.
    rewrite Z2Nat.id in Hfold by exact Hn.
    rewrite Hfold, drop_ge by lia. symmetry. apply app_nil_r. }
  split; [exact Hst|]. split; [rewrite Hst; apply NoDup_seqZ|].
  split; [rewrite kernel_closed_form by lia; rewrite length_fmap, length_seqZ; lia|].
  split; [intros i j Hi Hj; apply lookup_kernel; assumption|].
  split.
  - rewrite !kernel_closed_form by lia. reflexivity.
  - unfold for_lt.
    assert (Hiter : forall (n : nat) (k : Z) (res : list RgbPixel),
      Z.of_nat (length res) = width * height ->
      iterate (S n) k (fun _ t => processImageSmoothFilter bmp width height radius t) res
      = processImageSmoothFilter bmp width height radius result1).
    { induction n as [|n IH]; intros k res Hres.
      - cbn [iterate]. rewrite !kernel_closed_form by lia. reflexivity.
      - change (iterate (S (S n)) k ?f res) with (iterate (S n) (k + 1) f (f k res)).
        apply IH. rewrite kernel_closed_form by lia.
        rewrite length_fmap, length_seqZ. lia. }
    change (Z.to_nat (100 - 0)) with (S 99). apply Hiter. exact H1.
Qed.

(** The image of the border example, smoothed into a destination of
    zeros and into a destination of another colour. *)
Lemma destination_overwritten_witness :
  processImageSmoothFilter corner_image 3 3 1 (replicate 9 zeroPixel)
  = processImageSmoothFilter corner_image 3 3 1 (replicate 9 (gray 200)).
Proof.
  apply (destination_overwritten corner_image 3 3 1
           (replicate 9 zeroPixel) (replicate 9 (gray 200)));
    first [lia | vm_compute; congruence | reflexivity].
Defined.

(** ** Parallel executions *)

Lemma interleaving_Permutation {A : Type} (ls : list (list A)) (l : list A) :
  interleaving ls l -> l ≡ₚ concat ls.
Proof.
  induction 1 as [ls Hnil|ls1 ls2 x l tr _ IH].
  - induction Hnil as [|l ls -> _ IH]; [reflexivity|exact IH].
  - rewrite concat_app in IH |- *. cbn [concat] in IH |- *.
    rewrite IH. cbn [app]. apply Permutation_middle.
Qed.

(** A fold does not depend on the order of the elements when the steps
    taken for the elements commute. *)
Lemma fold_left_Permutation {A T : Type} (step : T -> A -> T) (D : A -> Prop)
    (l1 l2 : list A) :
  (forall x y s, D x -> D y -> step (step s x) y = step (step s y) x) ->
  l1 ≡ₚ l2 -> Forall D l1 ->
  forall s, fold_left step l1 s = fold_left step l2 s.
Proof.
  intros Hcomm Hperm. induction Hperm as [|x l1 l2 Hp IH|x y l|l1 l2 l3 Hp1 IH1 Hp2 IH2];
    intros HD s.
  - reflexivity.
  - cbn. apply IH. inversion HD; assumption.
  - cbn. inversion HD as [|? ? Hy Hrest]; subst. inversion Hrest as [|? ? Hx _]; subst.
    rewrite (Hcomm y x) by assumption. reflexivity.
  - rewrite IH1 by assumption. apply IH2. rewrite <- Hp1. exact HD.
Qed.

Lemma elem_of_all_iterations (width height i j : Z) :
  (i, j) ∈ all_iterations width height <-> 0 <= i < height /\ 0 <= j < width.
Proof.
  unfold all_iterations, row_iterations. rewrite list_elem_of_bind. split.
  - intros (x & Hin & Hx). apply elem_of_seqZ in Hx.
    apply list_elem_of_fmap in Hin as (y & Heq & Hy). apply elem_of_seqZ in Hy.
    inversion Heq; subst. lia.
  - intros [Hi Hj]. exists i. split.
    + apply list_elem_of_fmap. exists j. split; [reflexivity|]. apply elem_of_seqZ. lia.
    + apply elem_of_seqZ. lia.
Qed.

(** Two iterations of the kernel commute: they store to different
    positions unless they are the same iteration. *)
Lemma smooth_step_commute (bmp : list RgbPixel) (width height radius : Z)
    (i j i' j' : Z) (res : list RgbPixel) :
  width * height < 2 ^ 64 ->
  0 <= i < height -> 0 <= j < width -> 0 <= i' < height -> 0 <= j' < width ->
  smooth_step bmp width height radius i' j' (smooth_step bmp width height radius i j res)
  = smooth_step bmp width height radius i j (smooth_step bmp width height radius i' j' res).
Proof.
  intros Hwh Hi Hj Hi' Hj'. unfold smooth_step.
  destruct (position_in_bounds width height i j Hi Hj Hwh) as [-> Hp].
  destruct (position_in_bounds width height i' j' Hi' Hj' Hwh) as [-> Hp'].
  destruct (decide (i = i' /\ j = j')) as [[-> ->]|Hne]; [reflexivity|].
  apply list_insert_insert_ne. intros Heq.
  apply Z2Nat.inj in Heq; [|lia..].
  assert (i = i') by nia. subst i'. assert (j = j') by lia. tauto.
Qed.

(** C5: whatever the number of workers, the assignment of the rows to
    them, the interleaving of their iterations and the initial contents
    of the destination, a parallel execution leaves the array that is
    determined by the source, the dimensions and the radius alone, which is
    also what the sequential kernel leaves; any two invocations, on the
    same destination or on two, therefore agree. *)
Theorem parallel_deterministic (bmp result1 result2 : list RgbPixel)
    (width height radius : Z)
    (owned1 owned2 : list (list Z)) (sched1 sched2 : list (Z * Z)) :
  0 <= width -> 0 <= height -> width * height < 2 ^ 64 ->
  Z.of_nat (length result1) = width * height ->
  Z.of_nat (length result2) = width * height ->
  row_partition height owned1 ->
  interleaving (worker_iterations width <$> owned1) sched1 ->
  row_partition height owned2 ->
  interleaving (worker_iterations width <$> owned2) sched2 ->
  run_iterations bmp width height radius sched1 result1
  = stored_pixel bmp width height radius <$> seqZ 0 (width * height) /\
  run_iterations bmp width height radius sched1 result1
  = processImageSmoothFilter bmp width height radius result1 /\
  run_iterations bmp width height radius sched1 result1
  = run_iterations bmp width height radius sched2 result2.
Proof.
  intros Hw Hh Hwh Hlen1 Hlen2 Hp1 Hi1 Hp2 Hi2.
  assert (Hseq : forall owned sched result,
    row_partition height owned ->
    interleaving (worker_iterations width <$> owned) sched ->
    run_iterations bmp width height radius sched result
    = processImageSmoothFilter bmp width height radius result).
  { intros owned sched result Hp Hi. rewrite kernel_run_iterations.
    unfold run_iterations. symmetry.
    apply (fold_left_Permutation _
             (fun ij => 0 <= ij.1 < height /\ 0 <= ij.2 < width)).
    - intros [i j] [i' j'] s [Ha Hb] [Hc Hd]. cbn [fst snd] in *.
      apply smooth_step_commute; assumption.
    - apply interleaving_Permutation in Hi. rewrite Hi.
      unfold worker_iterations, all_iterations, row_partition in *.
      rewrite <- Hp. clear.
      induction owned as [|rows owned IH]; [reflexivity|].
      cbn [fmap list_fmap concat]. rewrite bind_app, IH. reflexivity.
    - apply Forall_forall. intros [i j] Hin. apply elem_of_all_iterations in Hin.
      exact Hin. }
  rewrite (Hseq owned1 sched1 result1 Hp1 Hi1), (Hseq owned2 sched2 result2 Hp2 Hi2).
  rewrite !kernel_closed_form by assumption. auto.
Qed.

(** One worker that owns both rows of a 2 x 2 image and starts from a
    destination of zeros, and two workers that own one row each,
    alternate and start from a destination of another colour. *)
Lemma parallel_deterministic_witness :
  run_iterations (replicate 4 (gray 7)) 2 2 1 [(0, 0); (0, 1); (1, 0); (1, 1)]
    (replicate 4 zeroPixel)
  = run_iterations (replicate 4 (gray 7)) 2 2 1 [(1, 0); (0, 0); (1, 1); (0, 1)]
    (replicate 4 (gray 200)).
Proof.
  apply (parallel_deterministic (replicate 4 (gray 7))
           (replicate 4 zeroPixel) (replicate 4 (gray 200)) 2 2 1
           [[0; 1]] [[1]; [0]]).
  - lia.
  - lia.
  - vm_compute. reflexivity.
  - reflexivity.
  - reflexivity.
  - unfold row_partition. reflexivity.
  - apply (interleaving_step [] [] (0, 0)), (interleaving_step [] [] (0, 1)),
      (interleaving_step [] [] (1, 0)), (interleaving_step [] [] (1, 1)).
    apply interleaving_done. repeat constructor.
  - unfold row_partition. cbn. apply perm_swap.
  - apply (interleaving_step [] [[(0, 0); (0, 1)]] (1, 0)),
      (interleaving_step [[(1, 1)]] [] (0, 0)),
      (interleaving_step [] [[(0, 1)]] (1, 1)),
      (interleaving_step [[]] [] (0, 1)).
    apply interleaving_done. repeat constructor.
Defined.

(** ** The codec *)

Lemma header_byte_range (header : list byte) (off : Z) :
  0 <= header_byte header off <= 255.
Proof. apply uchar_val_range. Qed.

Lemma load_uint_range (header : list byte) (off : Z) :
  0 <= load_uint header off < 2 ^ 32.
Proof.
  unfold load_uint.
  pose proof (header_byte_range header off).
  pose proof (header_byte_range header (off + 1)).
  pose proof (header_byte_range header (off + 2)).
  pose proof (header_byte_range header (off + 3)).
  change (2 ^ 8) with 256. change (2 ^ 16) with 65536.
  change (2 ^ 24) with 16777216. change (2 ^ 32) with 4294967296. lia.
Qed.

(** The fields of a header are those of the file it was read from. *)
Lemma load_uint_prefix (bytes rest : list byte) (n : nat) (off : Z) :
  0 <= off -> off + 3 < Z.of_nat n -> (n <= length bytes)%nat ->
  load_uint (take n bytes ++ rest) off = load_uint bytes off.
Proof.
  intros Hoff Hn Hlen.
  assert (Hb : forall k, 0 <= k < Z.of_nat n ->
            header_byte (take n bytes ++ rest) k = header_byte bytes k).
  { intros k Hk. unfold header_byte.
    rewrite lookup_app_l by (rewrite length_take; lia).
    rewrite lookup_take_lt by lia. reflexivity. }
  unfold load_uint. rewrite !Hb by lia. reflexivity.
Qed.

Lemma dimensions_size (header : list byte) :
  size_t (getWidth header * getHeight header) = getWidth header * getHeight header /\
  0 <= getWidth header * getHeight header < 2 ^ 64.
Proof.
  pose proof (load_uint_range header BMP_HEADER_WIDTH_OFFSET) as Hw.
  pose proof (load_uint_range header BMP_HEADER_HEIGHT_OFFSET) as Hh.
  fold (getWidth header) in Hw. fold (getHeight header) in Hh.
  change (2 ^ 32) with 4294967296 in *.
  assert (Hb : 0 <= getWidth header * getHeight header < 2 ^ 64)
    by (change (2 ^ 64) with 18446744073709551616; nia).
  split; [apply size_t_small; exact Hb | exact Hb].
Qed.

(** The loop of [readBmp] on a stream that holds the missing pixels. *)
Lemma read_pixels_exact (n : nat) (stream : list byte) (i size : Z)
    (filled : list RgbPixel) :
  size - i = Z.of_nat n -> Z.of_nat (length stream) = PIXEL_REAL_SIZE * Z.of_nat n ->
  exists pixels,
    read_pixels stream i size filled = Some (filled ++ pixels) /\
    length pixels = n /\ pixels ≫= pixel_bytes = stream.
Proof.
  unfold PIXEL_REAL_SIZE.
  revert stream i filled. induction n as [|n IH]; intros stream i filled Hn Hlen.
  - exists []. destruct stream as [|c stream]; [|cbn in Hlen; lia].
    cbn [read_pixels]. destruct (Z.leb_spec size i); [|lia].
    rewrite app_nil_r. auto.
  - destruct stream as [|c0 [|c1 [|c2 rest]]]; cbn [length] in Hlen; try lia.
    cbn [read_pixels]. destruct (Z.leb_spec size i); [lia|].
    destruct (IH rest (i + 1) (filled ++ [mkRgbPixel c0 c1 c2]) ltac:(lia) ltac:(lia))
      as (pixels & Hread & Hlenp & Hbytes).
    exists (mkRgbPixel c0 c1 c2 :: pixels). split; [|split].
    + rewrite Hread, <- app_assoc. reflexivity.
    + cbn. lia.
    + rewrite bind_cons, Hbytes. reflexivity.
Qed.

Lemma fold_left_append {A B : Type} (f : A -> list B) (l : list A) (init : list B) :
  fold_left (fun out x => out ++ f x) l init = init ++ (l ≫= f).
Proof.
  revert init. induction l as [|x l IH]; intros init.
  - cbn. rewrite app_nil_r. reflexivity.
  - cbn [fold_left]. rewrite IH, bind_cons, app_assoc. reflexivity.
Qed.

Lemma pixels_by_index (bmp : list RgbPixel) :
  pixel_at bmp <$> seqZ 0 (Z.of_nat (length bmp)) = bmp.
Proof.
  apply list_eq. intros n. rewrite list_lookup_fmap.
  destruct (Nat.lt_ge_cases n (length bmp)) as [Hlt|Hge].
  - rewrite lookup_seqZ_lt by lia. cbn [fmap option_fmap option_map].
    unfold pixel_at. rewrite Z.add_0_l, Nat2Z.id.
    destruct (lookup_lt_is_Some_2 bmp n Hlt) as [p ->]. reflexivity.
  - rewrite lookup_seqZ_ge by lia. rewrite lookup_ge_None_2 by lia. reflexivity.
Qed.

(** What [writeBmp] writes: the first 54 bytes of the header, then three
    bytes for each of the [width * height] pixels. *)
Lemma writeBmp_bytes (header : list byte) (bmp : list RgbPixel) :
  writeBmp true header bmp =
  Some (take (Z.to_nat BMP_HEADER_SIZE) header
        ++ (seqZ 0 (getWidth header * getHeight header)
              ≫= fun i => pixel_bytes (pixel_at bmp i))).
Proof.
  unfold writeBmp. cbn [negb].
  destruct (dimensions_size header) as [-> _].
  rewrite for_lt_fold, fold_left_append, Z.sub_0_r. reflexivity.
Qed.

Lemma bind_fmap {A B C : Type} (f : A -> B) (k : B -> list C) (l : list A) :
  (f <$> l) ≫= k = l ≫= (fun x => k (f x)).
Proof. induction l as [|x l IH]; [reflexivity|]. cbn. rewrite IH. reflexivity. Qed.

(** C4: decoding a well-formed file and encoding the header and pixels
    that were read gives back the file, byte for byte. *)
Theorem decode_encode_round_trip (bytes header : list byte)
    (bmp : option (list RgbPixel)) :
  well_formed_file bytes ->
  exists pixels,
    read_ok (readBmp (Some bytes) header bmp) = true /\
    read_bmp (readBmp (Some bytes) header bmp) = Some pixels /\
    writeBmp true (read_header (readBmp (Some bytes) header bmp)) pixels = Some bytes.
Proof.
  intros [Hlen54 Hlen]. unfold BMP_HEADER_SIZE, PIXEL_REAL_SIZE in *.
  unfold readBmp. change (Z.to_nat BMP_HEADER_SIZE) with 54%nat.
  assert (Hgot : length (take 54 bytes) = 54%nat) by (rewrite length_take; lia).
  rewrite Hgot. change (Z.of_nat 54 =? BMP_HEADER_SIZE) with true. cbn [negb].
  set (header' := take 54 bytes ++ drop 54 header).
  assert (Hw : getWidth header' = getWidth bytes)
    by (apply load_uint_prefix; unfold BMP_HEADER_WIDTH_OFFSET; lia).
  assert (Hh : getHeight header' = getHeight bytes)
    by (apply load_uint_prefix; unfold BMP_HEADER_HEIGHT_OFFSET; lia).
  destruct (dimensions_size header') as [Hsize Hrange]. rewrite Hsize, Hw, Hh in *.
  set (size := getWidth bytes * getHeight bytes) in *.
  destruct (read_pixels_exact (Z.to_nat size) (drop 54 bytes) 0 size [])
    as (pixels & Hread & Hlenp & Hbytes).
  - lia.
  - rewrite length_drop. unfold PIXEL_REAL_SIZE. lia.
  - rewrite Hread. cbn [app read_ok read_bmp read_header].
    exists pixels. split; [reflexivity|]. split; [reflexivity|].
    rewrite writeBmp_bytes. fold header'. rewrite Hw, Hh. fold size.
    change (Z.to_nat BMP_HEADER_SIZE) with 54%nat.
    unfold header'. rewrite take_app_length' by (symmetry; exact Hgot).
    replace size with (Z.of_nat (length pixels)) by lia.
    rewrite <- (bind_fmap (pixel_at pixels) pixel_bytes), pixels_by_index, Hbytes.
    rewrite take_drop. reflexivity.
Qed.

Lemma decode_encode_round_trip_witness :
  exists pixels,
    read_ok (readBmp (Some tiny_file) (replicate 54 x00) None) = true /\
    read_bmp (readBmp (Some tiny_file) (replicate 54 x00) None) = Some pixels /\
    writeBmp true (read_header (readBmp (Some tiny_file) (replicate 54 x00) None)) pixels
    = Some tiny_file.
Proof.
  apply (decode_encode_round_trip tiny_file (replicate 54 x00) None).
  unfold well_formed_file. vm_compute. intuition congruence.
Defined.

(** [readBmp] on a file that is shorter than the header. *)
Lemma readBmp_short (bytes header : list byte) (bmp : option (list RgbPixel)) :
  Z.of_nat (length bytes) < BMP_HEADER_SIZE ->
  readBmp (Some bytes) header bmp =
  mkReadResult false (bytes ++ drop (length bytes) header) bmp [Fopen; Fclose].
Proof.
  unfold BMP_HEADER_SIZE. intros Hlen. unfold readBmp.
  change (Z.to_nat BMP_HEADER_SIZE) with 54%nat.
  rewrite take_ge by lia.
  destruct (Z.eqb_spec (Z.of_nat (length bytes)) BMP_HEADER_SIZE) as [Heq|Hne].
  - unfold BMP_HEADER_SIZE in Heq. lia.
  - reflexivity.
Qed.

(** [readBmp] on a file that holds a whole header. *)
Lemma readBmp_long (bytes header : list byte) (bmp : option (list RgbPixel)) :
  BMP_HEADER_SIZE <= Z.of_nat (length bytes) ->
  readBmp (Some bytes) header bmp =
  let header' := take 54 bytes ++ drop 54 header in
  let size := size_t (getWidth header' * getHeight header') in
  match read_pixels (drop 54 bytes) 0 size [] with
  | None => mkReadResult false header' None [Fopen; allocateMemory size; Free; Fclose]
  | Some pixels => mkReadResult true header' (Some pixels) [Fopen; allocateMemory size; Fclose]
  end.
Proof.
  unfold BMP_HEADER_SIZE. intros Hlen. unfold readBmp.
  change (Z.to_nat BMP_HEADER_SIZE) with 54%nat.
  assert (Hgot : length (take 54 bytes) = 54%nat) by (rewrite length_take; lia).
  rewrite Hgot. reflexivity.
Qed.

(** A successful [readBmp] has read the whole header from the file. *)
Lemma readBmp_ok (file : option (list byte)) (header : list byte)
    (bmp : option (list RgbPixel)) :
  read_ok (readBmp file header bmp) = true ->
  exists bytes, file = Some bytes /\
    BMP_HEADER_SIZE <= Z.of_nat (length bytes) /\
    take (Z.to_nat BMP_HEADER_SIZE) (read_header (readBmp file header bmp))
    = take (Z.to_nat BMP_HEADER_SIZE) bytes.
Proof.
  destruct file as [bytes|]; [|discriminate].
  destruct (Z.lt_ge_cases (Z.of_nat (length bytes)) BMP_HEADER_SIZE) as [Hlt|Hge].
  - rewrite readBmp_short by exact Hlt. discriminate.
  - rewrite readBmp_long by exact Hge. cbv zeta. intros Hok.
    exists bytes. split; [reflexivity|]. split; [exact Hge|].
    change (Z.to_nat BMP_HEADER_SIZE) with 54%nat. unfold BMP_HEADER_SIZE in Hge.
    destruct (read_pixels _ _ _ _); cbn [read_header];
      apply take_app_length'; rewrite length_take; lia.
Qed.

(** C7: when the program decodes an input file and encodes an output
    file, the first 54 bytes of the output are the 54 bytes of the input
    header. *)
Theorem header_preserved (atoi : string -> Z) (files : string -> option (list byte))
    (writable : string -> bool) (totalBegin begin_ end_ totalEnd : Z)
    (fresh : nat -> RgbPixel) (stack : list byte) (argv : list string)
    (name : string) (out : list byte) :
  written (main atoi files writable totalBegin begin_ end_ totalEnd fresh stack argv)
  = Some (name, out) ->
  exists input,
    files (default EmptyString (argv !! 1%nat)) = Some input /\
    BMP_HEADER_SIZE <= Z.of_nat (length input) /\
    take (Z.to_nat BMP_HEADER_SIZE) out = take (Z.to_nat BMP_HEADER_SIZE) input.
Proof.
  unfold main.
  destruct (negb (Z.of_nat (length argv) =? 4)); [discriminate|].
  set (rd := readBmp (files (default EmptyString (argv !! 1%nat))) stack None).
  destruct (read_ok rd) eqn:Hok; cbn [negb]; [|discriminate].
  destruct (readBmp_ok _ _ _ Hok) as (input & Hfile & Hlen & Hhdr). fold rd in Hhdr.
  destruct (writable (default EmptyString (argv !! 2%nat))).
  - rewrite writeBmp_bytes. cbn [written]. intros Hout. inversion Hout; subst.
    exists input. split; [exact Hfile|]. split; [exact Hlen|].
    rewrite take_app_length'; [exact Hhdr|].
    rewrite Hhdr, length_take. unfold BMP_HEADER_SIZE in *. lia.
  - cbn. discriminate.
Qed.

Lemma header_preserved_witness :
  exists input,
    Some tiny_file = Some input /\
    BMP_HEADER_SIZE <= Z.of_nat (length input) /\
    take (Z.to_nat BMP_HEADER_SIZE)
      (tiny_file) = take (Z.to_nat BMP_HEADER_SIZE) input.
Proof.
  apply (header_preserved (fun _ => 1) (fun _ => Some tiny_file) (fun _ => true)
           0 0 0 0 (fun _ => zeroPixel) (replicate 54 x00)
           ["smooth"; "in.bmp"; "out.bmp"; "1"]%string "out.bmp"%string tiny_file).
  vm_compute. reflexivity.
Defined.

(** C8: a file shorter than the header makes [readBmp] return [false]
    before any allocation; and whenever [readBmp] returns [false], every
    pixel block it allocated has been released. *)
Theorem short_file_rejected (bytes header : list byte) (bmp : option (list RgbPixel)) :
  (Z.of_nat (length bytes) < BMP_HEADER_SIZE ->
     read_ok (readBmp (Some bytes) header bmp) = false /\
     read_trace (readBmp (Some bytes) header bmp) = [Fopen; Fclose] /\
     read_bmp (readBmp (Some bytes) header bmp) = bmp) /\
  (read_ok (readBmp (Some bytes) header bmp) = false ->
     live_blocks (read_trace (readBmp (Some bytes) header bmp)) = 0 /\
     (BMP_HEADER_SIZE <= Z.of_nat (length bytes) ->
        read_bmp (readBmp (Some bytes) header bmp) = None)).
Proof.
  destruct (Z.lt_ge_cases (Z.of_nat (length bytes)) BMP_HEADER_SIZE) as [Hlt|Hge].
  - rewrite readBmp_short by exact Hlt. cbn [read_ok read_trace read_bmp live_blocks].
    split; [auto|]. intros _. split; [reflexivity|]. lia.
  - rewrite readBmp_long by exact Hge. cbv zeta. split; [lia|].
    destruct (read_pixels _ _ _ _); cbn; [intros H; discriminate H|auto].
Qed.

Lemma short_file_rejected_witness :
  read_ok (readBmp (Some [x42; x4d]) (replicate 54 x00) None) = false /\
  read_trace (readBmp (Some [x42; x4d]) (replicate 54 x00) None) = [Fopen; Fclose] /\
  read_bmp (readBmp (Some [x42; x4d]) (replicate 54 x00) None) = None.
Proof.
  apply (short_file_rejected [x42; x4d] (replicate 54 x00) None).
  vm_compute. reflexivity.
Defined.

(** C9: with an argument count other than three the program prints the
    usage message and exits with status 0. *)
Theorem usage_exit_status (atoi : string -> Z) (files : string -> option (list byte))
    (writable : string -> bool) (totalBegin begin_ end_ totalEnd : Z)
    (fresh : nat -> RgbPixel) (stack : list byte) (argv : list string) :
  Z.of_nat (length argv) <> 4 ->
  main atoi files writable totalBegin begin_ end_ totalEnd fresh stack argv
  = mkRun 0 [PrintUsage] None.
Proof.
  intros Hargc. unfold main.
  destruct (Z.eqb_spec (Z.of_nat (length argv)) 4); [contradiction|reflexivity].
Qed.

Lemma usage_exit_status_witness :
  main (fun _ => 0) (fun _ => None) (fun _ => false) 0 0 0 0 (fun _ => zeroPixel) []
    ["smooth"; "in.bmp"]%string
  = mkRun 0 [PrintUsage] None.
Proof.
  apply usage_exit_status. vm_compute. congruence.
Defined.

(** ** Uniform images *)

Lemma channel_sum_uniform (chan : RgbPixel -> byte) (c : RgbPixel) (n : nat)
    (width : Z) (cells : list (Z * Z)) :
  Forall (fun ij => 0 <= ij.1 * width + ij.2 < Z.of_nat n) cells ->
  channel_sum chan (replicate n c) width cells
  = uchar_val (chan c) * Z.of_nat (length cells).
Proof.
  induction 1 as [|ij cells Hij _ IH].
  - cbn. lia.
  - rewrite channel_sum_cons, IH. cbn [length]. rewrite Nat2Z.inj_succ.
    unfold pixel_at. rewrite lookup_replicate_2 by lia.
    change (default zeroPixel (Some c)) with c. lia.
Qed.

Lemma smooth_pixel_uniform (c : RgbPixel) (width height radius i j : Z) :
  0 <= i < height -> 0 <= j < width ->
  height < 2 ^ 64 -> width < 2 ^ 64 -> width * height < 2 ^ 64 ->
  0 <= radius -> i + radius < 2 ^ 64 -> j + radius < 2 ^ 64 ->
  255 * Z.of_nat (length (window_cells width height radius i j)) < 2 ^ 32 ->
  smooth_pixel (replicate (Z.to_nat (width * height)) c) width height radius i j = c.
Proof.
  intros Hi Hj Hh Hw Hwh Hr Hir Hjr Hcnt.
  pose proof (clip_bounds i radius height Hi Hr) as Hci.
  pose proof (clip_bounds j radius width Hj Hr) as Hcj.
  destruct (window_count_cells width height radius i j Hi Hj Hwh Hr) as [Hcount Hlen].
  unfold smooth_pixel.
  rewrite !window_start_clip, !window_end_clip by lia.
  rewrite Hcount, (window_sum_spec _ width height) by lia.
  fold (window_cells width height radius i j).
  assert (Hin : Forall (fun ij => 0 <= ij.1 * width + ij.2
                                  < Z.of_nat (Z.to_nat (width * height)))
                  (window_cells width height radius i j)).
  { apply Forall_forall. intros [ii jj] Hcell. apply elem_of_rectangle in Hcell.
    cbn [fst snd]. rewrite Z2Nat.id by lia.
    apply (position_in_bounds width height ii jj); lia. }
  rewrite !channel_sum_uniform by exact Hin.
  set (n := Z.of_nat (length (window_cells width height radius i j))) in *.
  cbn [acc_r acc_g acc_b].
  pose proof (uchar_val_range (r c)). pose proof (uchar_val_range (g c)).
  pose proof (uchar_val_range (b c)).
  assert (Hfit : forall v, 0 <= v <= 255 -> 0 <= v * n < 2 ^ 32).
  { intros v Hv. assert (v * n <= 255 * n) by (apply Z.mul_le_mono_nonneg_r; lia).
    assert (0 <= v * n) by (apply Z.mul_nonneg_nonneg; lia). lia. }
  rewrite !uint_small by (apply Hfit; assumption).
  rewrite !round_mean_uniform
    by first [assumption | apply Hfit; assumption
             | change (2 ^ 64) with 18446744073709551616 in *; lia].
  rewrite !uchar_of_val. destruct c; reflexivity.
Qed.

(** C6, amended: when the index arithmetic does not wrap and no window
    is so large that a channel sum could exceed the 32-bit accumulator,
    a uniform image is a fixed point of the kernel. *)
Theorem uniform_fixed_point (c : RgbPixel) (result : list RgbPixel)
    (width height radius : Z) :
  0 <= width < 2 ^ 64 -> 0 <= height < 2 ^ 64 -> width * height < 2 ^ 64 ->
  Z.of_nat (length result) = width * height ->
  0 <= radius -> height + radius <= 2 ^ 64 -> width + radius <= 2 ^ 64 ->
  (forall i j, 0 <= i < height -> 0 <= j < width ->
     255 * Z.of_nat (length (window_cells width height radius i j)) < 2 ^ 32) ->
  processImageSmoothFilter (replicate (Z.to_nat (width * height)) c)
    width height radius result
  = replicate (Z.to_nat (width * height)) c.
Proof.
  intros Hw Hh Hwh Hres Hr Hhr Hwr Hfit.
  rewrite kernel_closed_form by lia.
  apply list_eq. intros n.
  destruct (Z.lt_ge_cases (Z.of_nat n) (width * height)) as [Hlt|Hge].
  - rewrite list_lookup_fmap, lookup_seqZ_lt by lia. cbn [fmap option_fmap option_map].
    rewrite lookup_replicate_2 by lia.
    rewrite Z.add_0_l. unfold stored_pixel.
    assert (Hwpos : 0 < width) by nia.
    pose proof (Z.mod_pos_bound (Z.of_nat n) width Hwpos) as Hm.
    pose proof (Z.div_mod (Z.of_nat n) width ltac:(lia)) as Hdm.
    assert (Hd : 0 <= Z.of_nat n / width < height).
    { split; [apply Z.div_pos; lia|]. apply Z.div_lt_upper_bound; lia. }
    rewrite smooth_pixel_uniform; [reflexivity|first [lia | apply Hfit; lia]..].
  - rewrite list_lookup_fmap, lookup_seqZ_ge by lia.
    rewrite lookup_ge_None_2; [reflexivity|]. rewrite length_replicate. lia.
Qed.

Lemma uniform_fixed_point_witness :
  processImageSmoothFilter (replicate (Z.to_nat (3 * 3)) (gray 200)) 3 3 1
    (replicate 9 zeroPixel)
  = replicate (Z.to_nat (3 * 3)) (gray 200).
Proof.
  apply (uniform_fixed_point (gray 200) (replicate 9 zeroPixel) 3 3 1).
  - vm_compute. intuition congruence.
  - vm_compute. intuition congruence.
  - vm_compute. reflexivity.
  - vm_compute. reflexivity.
  - vm_compute. congruence.
  - vm_compute. congruence.
  - vm_compute. congruence.
  - intros i j Hi Hj.
    assert (Hc : (i = 0 \/ i = 1 \/ i = 2) /\ (j = 0 \/ j = 1 \/ j = 2)) by lia.
    destruct Hc as [[-> | [-> | ->]] [-> | [-> | ->]]]; vm_compute; reflexivity.
Defined.

(** C6 as stated fails on a white row of 16843010 pixels smoothed over
    its whole length: the channel sum 255 * 16843010 wraps to 254 in the
    32-bit accumulators and the kernel stores black. *)
Lemma uniform_fixed_point_counterexample :
  processImageSmoothFilter (replicate (Z.to_nat (white_row_length * 1)) (gray 255))
    white_row_length 1 (white_row_length - 1)
    (replicate (Z.to_nat white_row_length) zeroPixel) !! Z.to_nat (0 * white_row_length + 0)
  = Some (gray 0) /\
  processImageSmoothFilter (replicate (Z.to_nat (white_row_length * 1)) (gray 255))
    white_row_length 1 (white_row_length - 1)
    (replicate (Z.to_nat white_row_length) zeroPixel)
  <> replicate (Z.to_nat (white_row_length * 1)) (gray 255).
Proof.
  assert (Hcode : processImageSmoothFilter
            (replicate (Z.to_nat (white_row_length * 1)) (gray 255))
            white_row_length 1 (white_row_length - 1)
            (replicate (Z.to_nat white_row_length) zeroPixel)
            !! Z.to_nat (0 * white_row_length + 0) = Some (gray 0)).
  { unfold white_row_length.
    rewrite lookup_kernel; try lia; [|rewrite length_replicate; lia].
    apply (f_equal Some). unfold smooth_pixel.
    rewrite !window_start_clip, !window_end_clip by lia.
    rewrite (window_sum_spec _ 16843010 1) by (unfold clip_lo, clip_hi; lia).
    assert (Hin : Forall (fun ij => 0 <= ij.1 * 16843010 + ij.2
                                    < Z.of_nat (Z.to_nat (16843010 * 1)))
                    (rectangle (clip_lo 0 (16843010 - 1)) (clip_hi 0 (16843010 - 1) 1)
                               (clip_lo 0 (16843010 - 1)) (clip_hi 0 (16843010 - 1) 16843010))).
    { apply Forall_forall. intros [ii jj] Hcell. apply elem_of_rectangle in Hcell.
      cbn [fst snd]. unfold clip_lo, clip_hi in Hcell. lia. }
    rewrite !channel_sum_uniform by exact Hin.
    rewrite length_rectangle by (unfold clip_lo, clip_hi; lia).
    vm_compute. reflexivity. }
  split; [exact Hcode|].
  intros Heq. rewrite Heq in Hcode.
  rewrite lookup_replicate_2 in Hcode by (unfold white_row_length; lia).
  vm_compute in Hcode. discriminate Hcode.
Qed.

(** ** A radius that wraps the index arithmetic

    [atoi] turns the argument [-1] into the radius [2^64 - 1].  For the
    second row of a one-column image [i + radius] wraps to 0 and the
    window is the first row alone, not both rows. *)
Example radius_wraps :
  smooth_pixel [gray 10; gray 20] 1 2 (size_t (-1)) 1 0 = gray 10 /\
  mean_pixel [gray 10; gray 20] 1 (window_cells 1 2 (size_t (-1)) 1 0) = gray 15.
Proof. split; vm_compute; reflexivity. Qed.

(** * Further properties of the kernel *)

(** ** Memory safety *)

(** For every radius, wrapping or not: the bounds of the two inner loops
    are below [SIZE_MAX], so the loops end; every position read is inside
    the source array and the position stored to is inside the
    destination. *)
Theorem kernel_memory_safe (bmp result : list RgbPixel)
    (width height radius i j ii jj : Z) :
  image bmp width height ->
  Z.of_nat (length result) = width * height ->
  0 <= i < height -> 0 <= j < width ->
  window_start i radius <= ii <= window_end i radius height ->
  window_start j radius <= jj <= window_end j radius width ->
  window_end i radius height < 2 ^ 64 - 1 /\
  window_end j radius width < 2 ^ 64 - 1 /\
  (Z.to_nat (size_t (size_t (ii * width) + jj)) < length bmp)%nat /\
  (Z.to_nat (size_t (size_t (i * width) + j)) < length result)%nat.
Proof.
  intros Himg Hres Hi Hj Hii Hjj.
  pose proof Himg as (Hw & Hh & Hwh & Hlen).
  pose proof (window_end_bound i radius height Hi ltac:(lia)).
  pose proof (window_end_bound j radius width Hj ltac:(lia)).
  split; [lia|]. split; [lia|]. split.
  - apply (reads_in_bounds bmp width height radius i j); assumption.
  - apply (writes_in_bounds width height); assumption.
Qed.

Lemma kernel_memory_safe_witness :
  (Z.to_nat (size_t (size_t (0 * 1) + 0)) < length [gray 10; gray 20])%nat /\
  (Z.to_nat (size_t (size_t (1 * 1) + 0)) < length [zeroPixel; zeroPixel])%nat.
Proof.
  destruct (kernel_memory_safe [gray 10; gray 20] [zeroPixel; zeroPixel]
              1 2 (size_t (-1)) 1 0 0 0) as (_ & _ & Hr & Hs).
  - unfold image. vm_compute. intuition congruence.
  - reflexivity.
  - lia.
  - lia.
  - vm_compute. intuition congruence.
  - vm_compute. intuition congruence.
  - split; [exact Hr | exact Hs].
Defined.

(** ** What the kernel leaves in the destination *)

(** For every radius the destination keeps its length, and the cell of
    row [i], column [j] holds the pixel computed for that row and column. *)
Theorem kernel_output (bmp result : list RgbPixel) (width height radius i j : Z) :
  0 <= i < height -> 0 <= j < width -> width * height < 2 ^ 64 ->
  Z.of_nat (length result) = width * height ->
  length (processImageSmoothFilter bmp width height radius result) = length result /\
  processImageSmoothFilter bmp width height radius result !! Z.to_nat (i * width + j)
  = Some (smooth_pixel bmp width height radius i j).
Proof.
  intros Hi Hj Hwh Hlen. split.
  - rewrite kernel_closed_form by lia. rewrite length_fmap, length_seqZ. lia.
  - apply lookup_kernel; assumption.
Qed.

Lemma kernel_output_witness :
  processImageSmoothFilter corner_image 3 3 1 (replicate 9 zeroPixel) !! Z.to_nat (1 * 3 + 1)
  = Some (smooth_pixel corner_image 3 3 1 1 1).
Proof.
  apply (kernel_output corner_image (replicate 9 zeroPixel) 3 3 1 1 1);
    first [lia | vm_compute; congruence | reflexivity].
Defined.

(** ** The divisor at the interior and at a corner *)

(** Away from the border the kernel divides by [(2 * radius + 1)^2]. *)
Theorem interior_window_count (width height radius i j : Z) :
  0 <= radius -> radius <= i -> i + radius < height -> radius <= j ->
  j + radius < width -> width * height < 2 ^ 64 ->
  window_count (window_start i radius) (window_end i radius height)
               (window_start j radius) (window_end j radius width)
  = (2 * radius + 1) * (2 * radius + 1).
Proof.
  intros Hr Hi Hih Hj Hjw Hwh.
  assert (Hh : height < 2 ^ 64) by nia. assert (Hw : width < 2 ^ 64) by nia.
  rewrite !window_start_clip, !window_end_clip by lia.
  destruct (window_count_cells width height radius i j) as [-> _]; try lia.
  unfold window_cells. rewrite length_rectangle by (unfold clip_lo, clip_hi; lia).
  unfold clip_lo, clip_hi.
  replace (Z.max 0 (i - radius)) with (i - radius) by lia.
  replace (Z.min (height - 1) (i + radius)) with (i + radius) by lia.
  replace (Z.max 0 (j - radius)) with (j - radius) by lia.
  replace (Z.min (width - 1) (j + radius)) with (j + radius) by lia.
  ring.
Qed.

Lemma interior_window_count_witness :
  window_count (window_start 2 1) (window_end 2 1 5) (window_start 3 1) (window_end 3 1 7) = 9.
Proof. apply (interior_window_count 7 5 1 2 3); vm_compute; congruence. Defined.

(** At the corner [(0, 0)] of an image larger than the radius the kernel
    divides by [(radius + 1)^2]. *)
Theorem corner_window_count (width height radius : Z) :
  0 <= radius -> radius < height -> radius < width -> width * height < 2 ^ 64 ->
  window_count (window_start 0 radius) (window_end 0 radius height)
               (window_start 0 radius) (window_end 0 radius width)
  = (radius + 1) * (radius + 1).
Proof.
  intros Hr Hh Hw Hwh.
  assert (Hh' : height < 2 ^ 64) by nia. assert (Hw' : width < 2 ^ 64) by nia.
  rewrite !window_start_clip, !window_end_clip by lia.
  destruct (window_count_cells width height radius 0 0) as [-> _]; try lia.
  unfold window_cells. rewrite length_rectangle by (unfold clip_lo, clip_hi; lia).
  unfold clip_lo, clip_hi.
  replace (Z.max 0 (0 - radius)) with 0 by lia.
  replace (Z.min (height - 1) (0 + radius)) with radius by lia.
  replace (Z.min (width - 1) (0 + radius)) with radius by lia.
  ring.
Qed.

Lemma corner_window_count_witness :
  window_count (window_start 0 1) (window_end 0 1 3) (window_start 0 1) (window_end 0 1 3) = 4.
Proof. apply (corner_window_count 3 3 1); vm_compute; congruence. Defined.

(** ** A radius of [-1]

    [(size_t)atoi("-1")] is [2^64 - 1].  With that radius [i + radius]
    wraps for every row but the first: row [i >= 1] is averaged over the
    rows [0 .. i-1], its own row left out, and row 0 over all rows. *)
Theorem radius_minus_one_rows (height i : Z) :
  0 <= i < height -> height < 2 ^ 64 ->
  window_start i (size_t (-1)) = 0 /\
  window_end i (size_t (-1)) height = (if i =? 0 then height - 1 else i - 1).
Proof.
  intros Hi Hh. change (size_t (-1)) with (2 ^ 64 - 1).
  unfold window_start, window_end. split.
  - destruct (Z.ltb_spec i (2 ^ 64 - 1)); lia.
  - destruct (Z.eqb_spec i 0) as [->|Hnz].
    + rewrite (size_t_small (0 + (2 ^ 64 - 1))) by lia.
      destruct (Z.geb_spec (0 + (2 ^ 64 - 1)) height); [|lia].
      apply size_t_small. lia.
    + assert (Hwrap : size_t (i + (2 ^ 64 - 1)) = i - 1).
      { unfold size_t, SIZE_WIDTH.
        replace (i + (2 ^ 64 - 1)) with ((i - 1) + 1 * 2 ^ 64) by lia.
        rewrite Z.mod_add by lia. apply Z.mod_small. lia. }
      rewrite Hwrap. destruct (Z.geb_spec (i - 1) height); [lia|reflexivity].
Qed.

Lemma radius_minus_one_rows_witness :
  window_start 2 (size_t (-1)) = 0 /\ window_end 2 (size_t (-1)) 5 = 1.
Proof. apply (radius_minus_one_rows 5 2); vm_compute; intuition congruence. Defined.

(** ** Smoothing stays within the range of the window *)

Lemma channel_sum_between (chan : RgbPixel -> byte) (bmp : list RgbPixel)
    (width lo hi : Z) (cells : list (Z * Z)) :
  Forall (fun c => lo <= uchar_val (chan (pixel_at bmp (c.1 * width + c.2))) <= hi) cells ->
  lo * Z.of_nat (length cells) <= channel_sum chan bmp width cells
  <= hi * Z.of_nat (length cells).
Proof.
  induction 1 as [|c cells Hc _ IH].
  - cbn. lia.
  - rewrite channel_sum_cons. cbn [length]. rewrite Nat2Z.inj_succ. lia.
Qed.

Lemma round_half_up_between (sum count lo hi : Z) :
  1 <= count -> lo * count <= sum <= hi * count ->
  lo <= round_half_up sum count <= hi.
Proof.
  intros Hc Hs. unfold round_half_up. split.
  - apply Z.div_le_lower_bound; lia.
  - apply Z.lt_succ_r. apply Z.div_lt_upper_bound; lia.
Qed.

(** When the index arithmetic does not wrap and the window has at most
    [2^16] pixels, each channel of the stored pixel lies between the
    smallest and the largest value of that channel in the window: the
    filter creates no new extremes. *)
Theorem smoothed_within_range (chan : RgbPixel -> byte) (bmp result : list RgbPixel)
    (width height radius i j lo hi : Z) :
  chan = r \/ chan = g \/ chan = b ->
  image bmp width height ->
  Z.of_nat (length result) = width * height ->
  0 <= i < height -> 0 <= j < width ->
  0 <= radius -> height + radius <= 2 ^ 64 -> width + radius <= 2 ^ 64 ->
  Z.of_nat (length (window_cells width height radius i j)) <= 2 ^ 16 ->
  Forall (fun c => lo <= uchar_val (chan (pixel_at bmp (c.1 * width + c.2))) <= hi)
    (window_cells width height radius i j) ->
  exists p,
    processImageSmoothFilter bmp width height radius result !! Z.to_nat (i * width + j)
    = Some p /\
    lo <= uchar_val (chan p) <= hi.
Proof.
  intros Hchan (Hw & Hh & Hwh & Hlen) Hres Hi Hj Hr Hhr Hwr Hcnt Hrange.
  exists (mean_pixel bmp width (window_cells width height radius i j)). split.
  - rewrite lookup_kernel by lia. f_equal. apply smooth_pixel_mean; lia.
  - destruct (window_count_cells width height radius i j Hi Hj Hwh Hr) as [_ Hn].
    set (cells := window_cells width height radius i j) in *.
    pose proof (channel_sum_between chan bmp width lo hi cells Hrange) as Hsum.
    pose proof (channel_sum_bound chan bmp width cells) as Hb.
    pose proof (round_half_up_between _ (Z.of_nat (length cells)) lo hi ltac:(lia) Hsum) as Hrh.
    pose proof (round_half_up_range _ (Z.of_nat (length cells)) ltac:(lia) Hb) as Hrr.
    assert (Hval : uchar_val (chan (mean_pixel bmp width cells))
                   = round_half_up (channel_sum chan bmp width cells) (Z.of_nat (length cells))).
    { destruct Hchan as [-> | [-> | ->]]; unfold mean_pixel; cbn [r g b];
        rewrite uchar_val_of_Z; apply Z.mod_small; lia. }
    rewrite Hval. exact Hrh.
Qed.

Lemma smoothed_within_range_witness :
  exists p,
    processImageSmoothFilter corner_image 3 3 1 (replicate 9 zeroPixel) !! Z.to_nat (0 * 3 + 0)
    = Some p /\
    0 <= uchar_val (r p) <= 255.
Proof.
  apply (smoothed_within_range r corner_image (replicate 9 zeroPixel) 3 3 1 0 0 0 255).
  - left. reflexivity.
  - unfold image. vm_compute. intuition congruence.
  - reflexivity.
  - lia.
  - lia.
  - lia.
  - vm_compute. congruence.
  - vm_compute. congruence.
  - vm_compute. congruence.
  - vm_compute. repeat constructor; cbn; congruence.
Defined.

(** ** A radius that covers the whole image *)

(** When the radius reaches across the image (and the image has at most
    [2^16] pixels), every window is the whole image and every destination
    pixel is the mean of the whole image. *)
Theorem whole_image_radius (bmp result : list RgbPixel) (width height radius : Z) :
  image bmp width height ->
  Z.of_nat (length result) = width * height ->
  height - 1 <= radius -> width - 1 <= radius ->
  height + radius <= 2 ^ 64 -> width + radius <= 2 ^ 64 ->
  width * height <= 2 ^ 16 ->
  processImageSmoothFilter bmp width height radius result
  = replicate (Z.to_nat (width * height))
      (mean_pixel bmp width (rectangle 0 (height - 1) 0 (width - 1))).
Proof.
  intros (Hw & Hh & Hwh & Hlen) Hres Hrh Hrw Hhr Hwr Hsmall.
  rewrite kernel_closed_form by lia.
  apply list_eq. intros n.
  destruct (Z.lt_ge_cases (Z.of_nat n) (width * height)) as [Hlt|Hge].
  - rewrite list_lookup_fmap, lookup_seqZ_lt by lia. cbn [fmap option_fmap option_map].
    rewrite lookup_replicate_2 by lia.
    rewrite Z.add_0_l. unfold stored_pixel.
    assert (Hwpos : 0 < width) by nia.
    pose proof (Z.mod_pos_bound (Z.of_nat n) width Hwpos) as Hm.
    assert (Hd : 0 <= Z.of_nat n / width < height).
    { split; [apply Z.div_pos; lia|]. apply Z.div_lt_upper_bound; lia. }
    set (i := Z.of_nat n / width) in *. set (j := Z.of_nat n mod width) in *.
    assert (Hcells : window_cells width height radius i j
                     = rectangle 0 (height - 1) 0 (width - 1)).
    { unfold window_cells, clip_lo, clip_hi. f_equal; lia. }
    rewrite smooth_pixel_mean; try lia.
    + rewrite Hcells. reflexivity.
    + rewrite Hcells, length_rectangle by lia. nia.
  - rewrite list_lookup_fmap, lookup_seqZ_ge by lia.
    rewrite lookup_ge_None_2; [reflexivity|]. rewrite length_replicate. lia.
Qed.

Lemma whole_image_radius_witness :
  processImageSmoothFilter [gray 10; gray 20] 1 2 5 [zeroPixel; zeroPixel]
  = replicate (Z.to_nat (1 * 2)) (mean_pixel [gray 10; gray 20] 1 (rectangle 0 (2 - 1) 0 (1 - 1))).
Proof.
  apply (whole_image_radius [gray 10; gray 20] [zeroPixel; zeroPixel] 1 2 5);
    first [reflexivity | vm_compute; intuition congruence].
Defined.

(** ** Workers and their rows *)

(** The iterations of a worker change no cell of a row that the worker
    does not own. *)
Theorem worker_leaves_other_rows (bmp result : list RgbPixel)
    (width height radius : Z) (rows : list Z) (i j : Z) :
  width * height < 2 ^ 64 ->
  Forall (fun i' => 0 <= i' < height) rows ->
  0 <= i < height -> 0 <= j < width -> i ∉ rows ->
  run_iterations bmp width height radius (worker_iterations width rows) result
    !! Z.to_nat (i * width + j)
  = result !! Z.to_nat (i * width + j).
Proof.
  intros Hwh Hrows Hi Hj Hnot.
  assert (Hgen : forall its res,
    Forall (fun ij => 0 <= ij.1 < height /\ 0 <= ij.2 < width /\ ij.1 <> i) its ->
    run_iterations bmp width height radius its res !! Z.to_nat (i * width + j)
    = res !! Z.to_nat (i * width + j)).
  { unfold run_iterations. intros its res Hall. revert res.
    induction Hall as [|[i' j'] its (Hi' & Hj' & Hne) _ IH]; intros res; [reflexivity|].
    cbn [fold_left fst snd] in *. rewrite IH. unfold smooth_step.
    destruct (position_in_bounds width height i' j' Hi' Hj' Hwh) as [-> Hp].
    apply list_lookup_insert_ne. intros Heq.
    apply Z2Nat.inj in Heq; [|nia..].
    assert (i' = i) by nia. contradiction. }
  apply Hgen. apply Forall_forall. intros [i' j'] Hin.
  unfold worker_iterations, row_iterations in Hin.
  apply list_elem_of_bind in Hin as (x & Hin & Hx).
  apply list_elem_of_fmap in Hin as (y & Heq & Hy). apply elem_of_seqZ in Hy.
  inversion Heq; subst. cbn [fst snd].
  rewrite Forall_forall in Hrows. specialize (Hrows _ Hx).
  split; [lia|]. split; [lia|]. intros ->. contradiction.
Qed.

Lemma worker_leaves_other_rows_witness :
  run_iterations corner_image 3 3 1 (worker_iterations 3 [0; 2]) (replicate 9 (gray 7))
    !! Z.to_nat (1 * 3 + 2)
  = replicate 9 (gray 7) !! Z.to_nat (1 * 3 + 2).
Proof.
  apply (worker_leaves_other_rows corner_image (replicate 9 (gray 7)) 3 3 1 [0; 2] 1 2).
  - vm_compute. reflexivity.
  - repeat constructor; lia.
  - lia.
  - lia.
  - intros Hin. apply list_elem_of_In in Hin. cbn in Hin. lia.
Defined.

(** The binary64 sum of a binary32 number and 0.5 is exact, and its
    integral part is that of the exact sum. *)
Lemma sum_with_half_normal (m e : Z) :
  2 ^ 23 <= m < 2 ^ 24 -> -52 <= e <= -1 ->
  exists mz ez,
    Float.dadd (Float.to_double (S754_finite false (Z.to_pos m) e)) Float.half
    = S754_finite false mz ez /\
    Float.truncate (S754_finite false mz ez) = (m + 2 ^ (- e - 1)) / 2 ^ (- e).
Proof.
  intros Hm He. rewrite to_double_normal by lia.
  set (ez := Z.min (e - 29) (-53)).
  set (gg := e - ez).
  set (N := m + 2 ^ (- e - 1)).
  assert (Hg : 29 <= gg <= 52) by (unfold gg, ez; lia).
  assert (Hh : 2 ^ 0 <= 2 ^ (- e - 1) <= 2 ^ 51)
    by (split; apply Z.pow_le_mono_r; lia).
  assert (HN : 0 < N < 2 ^ 52) by (unfold N; cbn in *; lia).
  assert (Hpg : 2 ^ 29 <= 2 ^ gg) by (apply Z.pow_le_mono_r; lia).
  assert (Hsum : Float.dadd (S754_finite false (Z.to_pos (m * 2 ^ 29)) (e - 29)) Float.half
                 = binary_round Float.prec64 Float.emax64 false (Z.to_pos (N * 2 ^ gg)) ez).
  { assert (Hval : forall a c : positive, Zpos a + Zpos c = N * 2 ^ gg ->
        binary_normalize Float.prec64 Float.emax64
          (cond_Zopp false (Zpos a) + cond_Zopp false (Zpos c)) ez false
        = binary_round Float.prec64 Float.emax64 false (Z.to_pos (N * 2 ^ gg)) ez).
    { intros a c Hac. rewrite <- Hac. reflexivity. }
    unfold Float.dadd, SFadd, Float.half. fold ez. rewrite !shl_align_spec.
    destruct (Z.ltb_spec ez (e - 29)), (Z.ltb_spec ez (-53)); unfold ez in *; try lia;
      cbn [fst]; apply Hval; unfold N; rewrite Z.mul_add_distr_r;
      rewrite <- (pow2_split (- e - 1) gg) by lia.
    - replace (Z.min (e - 29) (-53)) with (-53) in * by lia.
      assert (0 < 2 ^ (e - 29 - -53)) by (apply Z.pow_pos_nonneg; lia).
      rewrite !Z2Pos.id by (cbn in *; nia).
      unfold gg. replace (Z.min (e - 29) (-53)) with (-53) by lia.
      replace (e - -53) with (29 + (e - 29 - -53)) by lia.
      rewrite (pow2_split 29 (e - 29 - -53)) by lia.
      replace (- e - 1 + (29 + (e - 29 - -53))) with 52 by lia.
      change (Zpos (2 ^ 52)) with (2 ^ 52). lia.
    - replace (Z.min (e - 29) (-53)) with (e - 29) in * by lia.
      assert (0 < 2 ^ (-53 - (e - 29))) by (apply Z.pow_pos_nonneg; lia).
      rewrite !Z2Pos.id by (cbn in *; nia).
      unfold gg. replace (Z.min (e - 29) (-53)) with (e - 29) by lia.
      replace (e - (e - 29)) with 29 by lia.
      replace (- e - 1 + 29) with (52 + (-53 - (e - 29))) by lia.
      rewrite (pow2_split 52 (-53 - (e - 29))) by lia.
      change (Zpos (2 ^ 52)) with (2 ^ 52). lia.
    - assert (e = -24) by lia. subst e.
      unfold gg. change (Z.min (-24 - 29) (-53)) with (-53).
      rewrite Z2Pos.id by lia.
      change (- -24 - 1 + (-24 - -53)) with 52. change (-24 - -53) with 29.
      change (Zpos (2 ^ 52)) with (2 ^ 52). lia. }
  rewrite Hsum.
  assert (HS : 2 ^ 52 <= N * 2 ^ gg < 2 ^ 52 * 2 ^ gg).
  { split; [|nia]. unfold N. rewrite Z.mul_add_distr_r.
    rewrite <- (pow2_split (- e - 1) gg) by lia.
    assert (2 ^ 52 <= 2 ^ (- e - 1 + gg)) by (apply Z.pow_le_mono_r; unfold gg, ez; lia).
    nia. }
  set (S := N * 2 ^ gg) in *.
  assert (HdS : 53 <= Zdigits2 S <= 52 + gg).
  { split; [apply Zdigits2_ge; cbn in *; lia|].
    apply Zdigits2_le; [cbn in *; lia|]. rewrite pow2_split by lia. lia. }
  set (k := Zdigits2 S - 53) in *.
  assert (Hk : 0 < 2 ^ k) by (apply Z.pow_pos_nonneg; lia).
  assert (Hsplit : 2 ^ gg = 2 ^ k * 2 ^ (gg - k))
    by (rewrite <- pow2_split by lia; f_equal; lia).
  assert (Hmod : S mod 2 ^ k = 0).
  { unfold S. rewrite Hsplit.
    replace (N * (2 ^ k * 2 ^ (gg - k))) with (N * 2 ^ (gg - k) * 2 ^ k) by lia.
    apply Z.mod_mul. lia. }
  rewrite binary_round_exact_shift;
    unfold Float.prec64, Float.emax64, emin; rewrite ?Z2Pos.id by (cbn in *; lia);
    fold k; try lia; [|unfold ez; lia..].
  eexists _, _. split; [reflexivity|].
  rewrite truncate_neg by (unfold gg in *; lia).
  pose proof (shifted_mantissa_bounds 53 ltac:(lia) S ltac:(cbn in *; lia) ltac:(lia)) as Hb.
  fold k in Hb.
  rewrite Z2Pos.id by (cbn in *; lia).
  rewrite Z.div_div by (try apply Z.pow_pos_nonneg; lia).
  rewrite <- pow2_split by (unfold gg in *; lia).
  replace (k + - (ez + k)) with (gg + - e) by (unfold gg; lia).
  rewrite pow2_split by lia. unfold S.
  rewrite Z.mul_comm, Z.div_mul_cancel_l by (try apply Z.pow_nonzero; lia).
  reflexivity.
Qed.

(** The binary32 quotient of a channel sum and a pixel count of at most
    [2^16]: a normal number whose nearest integer (ties upwards) is the
    mean rounded half up. *)
Lemma quotient_normal (s c : Z) :
  0 < s <= 255 * c -> 1 <= c <= 2 ^ 16 ->
  exists m t,
    Float.div (Float.of_unsigned s) (Float.of_unsigned c)
    = S754_finite false (Z.to_pos m) (- t) /\
    2 ^ 23 <= m < 2 ^ 24 /\ 16 <= t <= 52 /\
    (m + 2 ^ (t - 1)) / 2 ^ t = round_half_up s c.
Proof.
  intros Hs Hc. change (2 ^ 16) with 65536 in Hc.
  rewrite (of_unsigned_small c) by (cbn; lia).
  assert (Hs24 : 0 < s < 2 ^ 24) by (cbn; lia).
    assert (Hc24 : 0 < c < 2 ^ 24) by (cbn; lia).
    rewrite (of_unsigned_small s) by assumption.
    pose proof (normalized_bounds s Hs24) as Hm1.
    pose proof (normalized_bounds c Hc24) as Hm2.
    pose proof (Zdigits2_pos s ltac:(lia)) as Hds.
    pose proof (Zdigits2_pos c ltac:(lia)) as Hdc.
    assert (Hds' : Zdigits2 s <= 24) by (apply Zdigits2_le; lia).
    assert (Hdc' : Zdigits2 c <= 17) by (apply Zdigits2_le; cbn; lia).
    set (a := 24 - Zdigits2 s) in *. set (bb := 24 - Zdigits2 c) in *.
    replace (Zdigits2 s - 24) with (- a) by (unfold a; lia).
    replace (Zdigits2 c - 24) with (- bb) by (unfold bb; lia).
    destruct (div_normal (s * 2 ^ a) (- a) (c * 2 ^ bb) (- bb) Hm1 Hm2 ltac:(lia))
      as (m & e & Hdiv & Hmb & Heb & Hnear).
    rewrite Hdiv.
    set (j := e - (- a - - bb - 24)) in *.
    assert (Hj : 0 <= j <= 2) by (unfold j; lia).
    assert (HA : 0 < 2 ^ a) by (apply Z.pow_pos_nonneg; lia).
    assert (HQ : 0 < 2 ^ (j + bb)) by (apply Z.pow_pos_nonneg; lia).
    assert (HQe : 2 ^ j * (c * 2 ^ bb) = c * 2 ^ (j + bb))
      by (rewrite pow2_split by lia; ring).
    replace (m * 2 ^ j * (c * 2 ^ bb)) with (m * c * 2 ^ (j + bb)) in Hnear
      by (rewrite pow2_split by lia; ring).
    rewrite HQe in Hnear.
    assert (Hjb : j + bb <= a + 8).
    { destruct (Z.le_gt_cases (j + bb) (a + 8)) as [|Hgt]; [assumption|exfalso].
      assert (HW : 2 ^ (j + bb) = 2 ^ a * (512 * 2 ^ (j + bb - a - 9))).
      { change 512 with (2 ^ 9). rewrite <- !pow2_split by lia. f_equal. lia. }
      assert (HWp : 0 < 2 ^ (j + bb - a - 9)) by (apply Z.pow_pos_nonneg; lia).
      set (W := 2 ^ (j + bb - a - 9)) in *. rewrite HW in Hnear.
      change (2 ^ 24) with 16777216 in Hnear. change (2 ^ 23) with 8388608 in Hmb.
      assert (H1 : 2 ^ a * (512 * ((2 * m - 1) * c * W)) <= 2 ^ a * (512 * (65536 * s))) by lia.
      apply Z.mul_le_mono_pos_l in H1; [|assumption].
      apply Z.mul_le_mono_pos_l in H1; [|lia].
      replace ((2 * m - 1) * c * W) with (c * ((2 * m - 1) * W)) in H1 by ring.
      assert (H3 : c * ((2 * m - 1) * W) <= c * 16711680) by lia.
      apply Z.mul_le_mono_pos_l in H3; [|lia].
      assert (H4 : 16777215 * 1 <= (2 * m - 1) * W)
        by (apply Z.mul_le_mono_nonneg; lia).
      lia. }
    set (t := a + 24 - bb - j).
    assert (Ht : 16 <= t) by (unfold t; lia).
    assert (He : e = - t) by (unfold t, j; lia).
    assert (HT : 2 ^ a * 2 ^ 24 = 2 ^ t * 2 ^ (j + bb)).
    { rewrite <- !pow2_split by lia. f_equal. unfold t. lia. }
    assert (Hnear' : Z.abs (2 * (m * c - s * 2 ^ t)) <= c).
    { replace (s * 2 ^ a * 2 ^ 24) with (s * 2 ^ t * 2 ^ (j + bb)) in Hnear
        by (rewrite <- (Z.mul_assoc s (2 ^ a)), HT; ring).
      replace (2 * (m * c * 2 ^ (j + bb) - s * 2 ^ t * 2 ^ (j + bb)))
        with (2 * (m * c - s * 2 ^ t) * 2 ^ (j + bb)) in Hnear by ring.
      rewrite Z.abs_mul, (Z.abs_eq (2 ^ (j + bb))) in Hnear by lia.
      apply Z.mul_le_mono_pos_r in Hnear; assumption. }
    exists m, t. split; [rewrite He; reflexivity|].
    split; [exact Hmb|]. split; [unfold t, a, bb; lia|].
    unfold round_half_up. apply nearest_round; lia.
Qed.

(** ** The conversion in [ROUND] is defined

    For a window of at most [2^16] pixels the [double] that [ROUND]
    converts to [unsigned char] is a finite number whose integral part is
    the mean rounded half up, a value from 0 to 255: the conversion never
    leaves the range of [unsigned char]. *)
Theorem round_conversion_in_range (acc count : Z) :
  1 <= count <= 2 ^ 16 -> 0 <= acc <= 255 * count ->
  exists mz ez,
    Float.dadd (Float.to_double
                  (Float.div (Float.of_unsigned acc) (Float.of_unsigned count)))
               Float.half
    = S754_finite false mz ez /\
    Float.truncate (S754_finite false mz ez) = round_half_up acc count /\
    0 <= Float.truncate (S754_finite false mz ez) <= 255.
Proof.
  intros Hc Ha.
  pose proof (round_half_up_range acc count ltac:(lia) Ha) as Hr.
  destruct (Z.eq_dec acc 0) as [->|Hnz].
  - rewrite (of_unsigned_small count) by (change (2 ^ 16) with 65536 in Hc; cbn; lia).
    eexists _, _. split; [reflexivity|].
    assert (H0 : round_half_up 0 count = 0)
      by (unfold round_half_up; apply Z.div_small; lia).
    rewrite H0. split; [reflexivity|]. vm_compute. intuition congruence.
  - destruct (quotient_normal acc count ltac:(lia) Hc) as (m & t & Hdiv & Hm & Ht & Hq).
    rewrite Hdiv.
    destruct (sum_with_half_normal m (- t) Hm ltac:(lia)) as (mz & ez & Hsum & Htr).
    exists mz, ez. split; [exact Hsum|].
    replace (- - t) with t in Htr by lia. replace (- - t - 1) with (t - 1) in Htr by lia.
    rewrite Htr, Hq. split; [reflexivity|exact Hr].
Qed.

Lemma round_conversion_in_range_witness :
  exists mz ez,
    Float.dadd (Float.to_double (Float.div (Float.of_unsigned 255) (Float.of_unsigned 4)))
               Float.half
    = S754_finite false mz ez /\
    Float.truncate (S754_finite false mz ez) = round_half_up 255 4 /\
    0 <= Float.truncate (S754_finite false mz ez) <= 255.
Proof.
  apply (round_conversion_in_range 255 4); vm_compute; intuition congruence.
Defined.

(** * Further properties of the codec *)

(** ** The pixel count of a header *)

(** Width and height are 32-bit fields, so their product, the pixel
    count, never wraps in [size_t]. *)
Theorem pixel_count_no_overflow (header : list byte) :
  0 <= getWidth header < 2 ^ 32 /\ 0 <= getHeight header < 2 ^ 32 /\
  size_t (getWidth header * getHeight header) = getWidth header * getHeight header.
Proof.
  split; [apply load_uint_range|]. split; [apply load_uint_range|].
  apply dimensions_size.
Qed.

(** ** When decoding succeeds *)

(** The loop of [readBmp] on a stream that holds the missing pixels and
    possibly more. *)
Lemma read_pixels_enough (n : nat) (stream : list byte) (i size : Z)
    (filled : list RgbPixel) :
  size - i = Z.of_nat n -> 3 * Z.of_nat n <= Z.of_nat (length stream) ->
  exists pixels,
    read_pixels stream i size filled = Some (filled ++ pixels) /\
    length pixels = n /\ pixels ≫= pixel_bytes = take (3 * n) stream.
Proof.
  revert stream i filled. induction n as [|n IH]; intros stream i filled Hn Hlen.
  - exists []. destruct stream as [|c stream]; cbn [read_pixels];
      (destruct (Z.leb_spec size i); [|lia]); rewrite app_nil_r; auto.
  - destruct stream as [|c0 [|c1 [|c2 rest]]]; cbn [length] in Hlen; try lia.
    cbn [read_pixels]. destruct (Z.leb_spec size i); [lia|].
    destruct (IH rest (i + 1) (filled ++ [mkRgbPixel c0 c1 c2]) ltac:(lia) ltac:(lia))
      as (pixels & Hread & Hlenp & Hbytes).
    exists (mkRgbPixel c0 c1 c2 :: pixels). split; [|split].
    + rewrite Hread, <- app_assoc. reflexivity.
    + cbn. lia.
    + rewrite bind_cons, Hbytes.
      replace (3 * S n)%nat with (S (S (S (3 * n)))) by lia. reflexivity.
Qed.

(** The loop of [readBmp] on a stream that ends before the last pixel. *)
Lemma read_pixels_short (n : nat) (stream : list byte) (i size : Z)
    (filled : list RgbPixel) :
  size - i = Z.of_nat n -> Z.of_nat (length stream) < 3 * Z.of_nat n ->
  read_pixels stream i size filled = None.
Proof.
  revert stream i filled. induction n as [|n IH]; intros stream i filled Hn Hlen.
  - lia.
  - destruct stream as [|c0 [|c1 [|c2 rest]]]; cbn [length] in Hlen;
      cbn [read_pixels]; (destruct (Z.leb_spec size i); [lia|]); try reflexivity.
    apply IH; lia.
Qed.

(** [readBmp] succeeds exactly on the files that hold the header and at
    least [width * height] pixel records; it then hands back
    [width * height] pixels, the records in file order. *)
Theorem readBmp_succeeds_iff (bytes header : list byte) (bmp : option (list RgbPixel)) :
  (read_ok (readBmp (Some bytes) header bmp) = true <->
   BMP_HEADER_SIZE <= Z.of_nat (length bytes) /\
   BMP_HEADER_SIZE + PIXEL_REAL_SIZE * (getWidth bytes * getHeight bytes)
     <= Z.of_nat (length bytes)) /\
  (read_ok (readBmp (Some bytes) header bmp) = true ->
   exists pixels,
     read_bmp (readBmp (Some bytes) header bmp) = Some pixels /\
     Z.of_nat (length pixels) = getWidth bytes * getHeight bytes /\
     pixels ≫= pixel_bytes
     = take (3 * length pixels) (drop (Z.to_nat BMP_HEADER_SIZE) bytes)).
Proof.
  change (Z.to_nat BMP_HEADER_SIZE) with 54%nat.
  destruct (Z.lt_ge_cases (Z.of_nat (length bytes)) BMP_HEADER_SIZE) as [Hlt|Hge].
  - rewrite readBmp_short by exact Hlt. cbn [read_ok].
    split; [split; [discriminate|lia]|discriminate].
  - rewrite readBmp_long by exact Hge. cbv zeta.
    unfold BMP_HEADER_SIZE, PIXEL_REAL_SIZE in *.
    set (header' := take 54 bytes ++ drop 54 header).
    assert (Hw : getWidth header' = getWidth bytes)
      by (apply load_uint_prefix; unfold BMP_HEADER_WIDTH_OFFSET; lia).
    assert (Hh : getHeight header' = getHeight bytes)
      by (apply load_uint_prefix; unfold BMP_HEADER_HEIGHT_OFFSET; lia).
    destruct (dimensions_size header') as [Hsize Hrange]. rewrite Hsize, Hw, Hh in *.
    set (size := getWidth bytes * getHeight bytes) in *.
    destruct (Z.le_gt_cases (54 + 3 * size) (Z.of_nat (length bytes))) as [Hfull|Hcut].
    + destruct (read_pixels_enough (Z.to_nat size) (drop 54 bytes) 0 size [])
        as (pixels & Hread & Hlenp & Hbytes); [lia|rewrite length_drop; lia|].
      rewrite Hread. cbn [read_ok read_bmp app].
      split; [split; [lia|reflexivity]|]. intros _.
      exists pixels. split; [reflexivity|]. split; [lia|].
      rewrite Hlenp. exact Hbytes.
    + rewrite (read_pixels_short (Z.to_nat size)) by (rewrite ?length_drop; lia).
      cbn [read_ok]. split; [split; [discriminate|lia]|discriminate].
Qed.

Lemma readBmp_succeeds_iff_witness :
  exists pixels,
    read_bmp (readBmp (Some (tiny_file ++ [x07])) (replicate 54 x00) None) = Some pixels /\
    Z.of_nat (length pixels) = getWidth (tiny_file ++ [x07]) * getHeight (tiny_file ++ [x07]) /\
    pixels ≫= pixel_bytes
    = take (3 * length pixels) (drop (Z.to_nat BMP_HEADER_SIZE) (tiny_file ++ [x07])).
Proof.
  apply (readBmp_succeeds_iff (tiny_file ++ [x07]) (replicate 54 x00) None).
  vm_compute. reflexivity.
Defined.

(** ** What encoding writes *)

Lemma writeBmp_pixels (header : list byte) (bmp : list RgbPixel) :
  Z.of_nat (length bmp) = getWidth header * getHeight header ->
  writeBmp true header bmp
  = Some (take (Z.to_nat BMP_HEADER_SIZE) header ++ (bmp ≫= pixel_bytes)).
Proof.
  intros Hlen. rewrite writeBmp_bytes, <- Hlen.
  rewrite <- (bind_fmap (pixel_at bmp) pixel_bytes), pixels_by_index. reflexivity.
Qed.

Lemma length_pixel_bytes (bmp : list RgbPixel) :
  Z.of_nat (length (bmp ≫= pixel_bytes)) = 3 * Z.of_nat (length bmp).
Proof.
  induction bmp as [|p bmp IH]; [reflexivity|].
  rewrite bind_cons, length_app. cbn [length pixel_bytes]. lia.
Qed.

(** ** Bytes after the pixel data *)

(** Whatever follows the pixel data of a well-formed file is not read,
    and decoding then encoding drops it. *)
Theorem trailing_bytes_ignored (bytes extra header : list byte)
    (bmp : option (list RgbPixel)) :
  well_formed_file bytes ->
  readBmp (Some (bytes ++ extra)) header bmp = readBmp (Some bytes) header bmp /\
  exists pixels,
    read_bmp (readBmp (Some (bytes ++ extra)) header bmp) = Some pixels /\
    writeBmp true (read_header (readBmp (Some (bytes ++ extra)) header bmp)) pixels
    = Some bytes.
Proof.
  intros Hwf. pose proof Hwf as [Hlen54 Hlen].
  unfold BMP_HEADER_SIZE, PIXEL_REAL_SIZE in *.
  assert (Heq : readBmp (Some (bytes ++ extra)) header bmp = readBmp (Some bytes) header bmp).
  { rewrite !readBmp_long by (unfold BMP_HEADER_SIZE; rewrite ?length_app; lia). cbv zeta.
    rewrite take_app_le by lia.
    set (header' := take 54 bytes ++ drop 54 header).
    assert (Hw : getWidth header' = getWidth bytes)
      by (apply load_uint_prefix; unfold BMP_HEADER_WIDTH_OFFSET; lia).
    assert (Hh : getHeight header' = getHeight bytes)
      by (apply load_uint_prefix; unfold BMP_HEADER_HEIGHT_OFFSET; lia).
    destruct (dimensions_size header') as [Hsize Hrange]. rewrite Hsize, Hw, Hh in *.
    set (size := getWidth bytes * getHeight bytes) in *.
    destruct (read_pixels_enough (Z.to_nat size) (drop 54 bytes) 0 size [])
      as (p1 & Hr1 & Hl1 & Hb1); [lia|rewrite length_drop; lia|].
    destruct (read_pixels_enough (Z.to_nat size) (drop 54 (bytes ++ extra)) 0 size [])
      as (p2 & Hr2 & Hl2 & Hb2); [lia|rewrite length_drop, length_app; lia|].
    rewrite Hr1, Hr2. cbn [app].
    assert (Hp : p1 = p2).
    { assert (Hbytes : p1 ≫= pixel_bytes = p2 ≫= pixel_bytes).
      { rewrite Hb1, Hb2. rewrite drop_app_le by lia.
        rewrite take_app_le by (rewrite length_drop; lia). reflexivity. }
      clear - Hbytes Hl1 Hl2. rewrite <- Hl2 in Hl1. clear Hl2.
      revert p2 Hl1 Hbytes. induction p1 as [|[x1 y1 z1] p1 IH]; intros [|[x2 y2 z2] p2] Hl Hb;
        try discriminate; [reflexivity|].
      rewrite !bind_cons in Hb. cbn in Hb. inversion Hb; subst.
      f_equal. apply IH; [cbn in Hl; lia|assumption]. }
    rewrite Hp. reflexivity. }
  split; [exact Heq|]. rewrite Heq.
  rewrite readBmp_long by (unfold BMP_HEADER_SIZE; lia). cbv zeta.
  set (header' := take 54 bytes ++ drop 54 header).
  assert (Hw : getWidth header' = getWidth bytes)
    by (apply load_uint_prefix; unfold BMP_HEADER_WIDTH_OFFSET; lia).
  assert (Hh : getHeight header' = getHeight bytes)
    by (apply load_uint_prefix; unfold BMP_HEADER_HEIGHT_OFFSET; lia).
  destruct (dimensions_size header') as [Hsize Hrange]. rewrite Hsize, Hw, Hh in *.
  set (size := getWidth bytes * getHeight bytes) in *.
  destruct (read_pixels_enough (Z.to_nat size) (drop 54 bytes) 0 size [])
    as (pixels & Hread & Hlenp & Hbytes); [lia|rewrite length_drop; lia|].
  rewrite Hread. cbn [app read_bmp read_header].
  exists pixels. split; [reflexivity|].
  rewrite writeBmp_pixels by (rewrite Hw, Hh; fold size; lia).
  change (Z.to_nat BMP_HEADER_SIZE) with 54%nat.
  unfold header'. rewrite take_app_length' by (rewrite length_take; lia).
  rewrite Hbytes, (take_ge (drop 54 bytes)) by (rewrite length_drop; lia).
  rewrite take_drop. reflexivity.
Qed.

Lemma trailing_bytes_ignored_witness :
  readBmp (Some (tiny_file ++ [x07; x08])) (replicate 54 x00) None
  = readBmp (Some tiny_file) (replicate 54 x00) None.
Proof.
  apply (trailing_bytes_ignored tiny_file [x07; x08] (replicate 54 x00) None).
  unfold well_formed_file. vm_compute. intuition congruence.
Defined.

(** ** Encoding, then decoding *)

(** A 54-byte header and an array of [width * height] pixels, once
    written by [writeBmp], are read back unchanged by [readBmp]; the file
    has [54 + 3 * width * height] bytes. *)
Theorem encode_decode_round_trip (header header0 : list byte) (pixels : list RgbPixel)
    (bmp : option (list RgbPixel)) :
  Z.of_nat (length header) = BMP_HEADER_SIZE ->
  Z.of_nat (length header0) = BMP_HEADER_SIZE ->
  Z.of_nat (length pixels) = getWidth header * getHeight header ->
  exists bytes,
    writeBmp true header pixels = Some bytes /\
    Z.of_nat (length bytes)
    = BMP_HEADER_SIZE + PIXEL_REAL_SIZE * (getWidth header * getHeight header) /\
    read_ok (readBmp (Some bytes) header0 bmp) = true /\
    read_header (readBmp (Some bytes) header0 bmp) = header /\
    read_bmp (readBmp (Some bytes) header0 bmp) = Some pixels.
Proof.
  unfold BMP_HEADER_SIZE, PIXEL_REAL_SIZE. intros Hhdr Hhdr0 Hlen.
  rewrite writeBmp_pixels by exact Hlen.
  change (Z.to_nat BMP_HEADER_SIZE) with 54%nat.
  rewrite take_ge by lia.
  exists (header ++ (pixels ≫= pixel_bytes)). split; [reflexivity|].
  pose proof (length_pixel_bytes pixels) as Hpb.
  split; [rewrite length_app; lia|].
  rewrite readBmp_long by (unfold BMP_HEADER_SIZE; rewrite length_app; lia). cbv zeta.
  rewrite take_app_length' by lia.
  rewrite (drop_ge header0) by lia. rewrite app_nil_r.
  rewrite drop_app_length' by lia.
  destruct (dimensions_size header) as [-> _].
  set (size := getWidth header * getHeight header) in *.
  destruct (read_pixels_enough (Z.to_nat size) (pixels ≫= pixel_bytes) 0 size [])
    as (p & Hread & Hlp & Hbytes); [lia|lia|].
  rewrite Hread. cbn [app read_ok read_header read_bmp].
  split; [reflexivity|]. split; [reflexivity|]. f_equal.
  rewrite take_ge in Hbytes by lia.
  assert (Hl : length p = length pixels) by lia. clear - Hbytes Hl.
  revert pixels Hl Hbytes.
  induction p as [|[x1 y1 z1] p IH]; intros [|[x2 y2 z2] pixels] Hl Hb;
    try discriminate; [reflexivity|].
  rewrite !bind_cons in Hb. cbn in Hb. inversion Hb; subst.
  f_equal. apply IH; [cbn in Hl; lia|assumption].
Qed.

Lemma encode_decode_round_trip_witness :
  exists bytes,
    writeBmp true (take 54 tiny_file) [mkRgbPixel x0a x14 x1e] = Some bytes /\
    Z.of_nat (length bytes)
    = BMP_HEADER_SIZE + PIXEL_REAL_SIZE
        * (getWidth (take 54 tiny_file) * getHeight (take 54 tiny_file)) /\
    read_ok (readBmp (Some bytes) (replicate 54 x00) None) = true /\
    read_header (readBmp (Some bytes) (replicate 54 x00) None) = take 54 tiny_file /\
    read_bmp (readBmp (Some bytes) (replicate 54 x00) None) = Some [mkRgbPixel x0a x14 x1e].
Proof.
  apply (encode_decode_round_trip (take 54 tiny_file) (replicate 54 x00)
           [mkRgbPixel x0a x14 x1e] None); vm_compute; reflexivity.
Defined.

(** ** Resources of [readBmp] *)

(** A file that cannot be opened, a file that ends at or before the end
    of the header, and a file that holds every pixel record of its header
    (their size in bytes being a [size_t]): [readBmp] closes the file it
    opened, and it leaves one pixel block allocated when it returns [true]
    and none when it returns [false].  A file cut inside its pixel data is
    left out: what its bytes are stored into depends on the unchecked
    result of [malloc]. *)
Theorem readBmp_resources (file : option (list byte)) (header : list byte)
    (bmp : option (list RgbPixel)) :
  file = None \/
  (exists bytes, file = Some bytes /\
     (Z.of_nat (length bytes) <= BMP_HEADER_SIZE \/
      PIXEL_REAL_SIZE * (getWidth bytes * getHeight bytes) < 2 ^ 64 /\
      BMP_HEADER_SIZE + PIXEL_REAL_SIZE * (getWidth bytes * getHeight bytes)
        <= Z.of_nat (length bytes))) ->
  open_files (read_trace (readBmp file header bmp)) = 0 /\
  live_blocks (read_trace (readBmp file header bmp))
  = (if read_ok (readBmp file header bmp) then 1 else 0) /\
  (if read_ok (readBmp file header bmp)
   then exists pixels, read_bmp (readBmp file header bmp) = Some pixels
   else read_bmp (readBmp file header bmp) = None
        \/ read_bmp (readBmp file header bmp) = bmp).
Proof.
  intros [-> | (bytes & -> & _)]; [cbn; auto|].
  destruct (Z.lt_ge_cases (Z.of_nat (length bytes)) BMP_HEADER_SIZE) as [Hlt|Hge].
  - rewrite readBmp_short by exact Hlt. cbn. auto.
  - rewrite readBmp_long by exact Hge. cbv zeta.
    destruct (read_pixels _ _ _ _) as [pixels|]; cbn; eauto.
Qed.

(** The header of the one-pixel file, without its pixel. *)
Lemma readBmp_resources_witness :
  open_files (read_trace (readBmp (Some (take 54 tiny_file)) (replicate 54 x00) None)) = 0 /\
  live_blocks (read_trace (readBmp (Some (take 54 tiny_file)) (replicate 54 x00) None))
  = (if read_ok (readBmp (Some (take 54 tiny_file)) (replicate 54 x00) None)
     then 1 else 0) /\
  (if read_ok (readBmp (Some (take 54 tiny_file)) (replicate 54 x00) None)
   then exists pixels,
     read_bmp (readBmp (Some (take 54 tiny_file)) (replicate 54 x00) None) = Some pixels
   else read_bmp (readBmp (Some (take 54 tiny_file)) (replicate 54 x00) None) = None
        \/ read_bmp (readBmp (Some (take 54 tiny_file)) (replicate 54 x00) None) = None).
Proof.
  apply (readBmp_resources (Some (take 54 tiny_file)) (replicate 54 x00) None).
  right. exists (take 54 tiny_file). split; [reflexivity|]. left.
  vm_compute. congruence.
Defined.

(** * Properties of the driver *)

Lemma stored_pixel_radius_0 (bmp : list RgbPixel) (width height p : Z) :
  0 <= width < 2 ^ 64 -> 0 <= height < 2 ^ 64 -> width * height < 2 ^ 64 ->
  0 <= p < width * height ->
  stored_pixel bmp width height 0 p = pixel_at bmp p.
Proof.
  intros Hw Hh Hwh Hp. unfold stored_pixel.
  assert (Hwpos : 0 < width) by nia.
  pose proof (Z.mod_pos_bound p width Hwpos) as Hm.
  pose proof (Z.div_mod p width ltac:(lia)) as Hdm.
  assert (Hd : 0 <= p / width < height).
  { split; [apply Z.div_pos; lia|]. apply Z.div_lt_upper_bound; lia. }
  rewrite smooth_pixel_mean; try lia.
  - rewrite window_cells_radius_0, mean_pixel_single by lia. f_equal. lia.
  - rewrite window_cells_radius_0 by lia. cbn. lia.
Qed.

Lemma kernel_repeated (bmp : list RgbPixel) (width height radius : Z) (n : nat)
    (k : Z) (result : list RgbPixel) :
  0 <= width -> 0 <= height -> width * height < 2 ^ 64 ->
  Z.of_nat (length result) = width * height ->
  iterate (S n) k (fun _ res => processImageSmoothFilter bmp width height radius res) result
  = stored_pixel bmp width height radius <$> seqZ 0 (width * height).
Proof.
  intros Hw Hh Hwh. revert k result. induction n as [|n IH]; intros k result Hlen.
  - cbn [iterate]. apply kernel_closed_form; lia.
  - change (iterate (S (S n)) k ?f result) with (iterate (S n) (k + 1) f (f k result)).
    apply IH. rewrite kernel_closed_form by lia. rewrite length_fmap, length_seqZ. lia.
Qed.

Section DriverProperties.

Variable atoi : string -> Z.
Variable files : string -> option (list byte).
Variable writable : string -> bool.
Variables totalBegin begin_ end_ totalEnd : Z.
Variable fresh : nat -> RgbPixel.
Variable stack : list byte.

(** What [main] does once the input has been decoded into [pixels] and
    the header [header']. *)
Lemma main_after_decode (argv : list string) (bytes : list byte) :
  Z.of_nat (length argv) = 4 ->
  files (default EmptyString (argv !! 1%nat)) = Some bytes ->
  BMP_HEADER_SIZE + PIXEL_REAL_SIZE * (getWidth bytes * getHeight bytes)
    <= Z.of_nat (length bytes) ->
  exists pixels,
    Z.of_nat (length pixels) = getWidth bytes * getHeight bytes /\
    pixels ≫= pixel_bytes
    = take (3 * length pixels) (drop (Z.to_nat BMP_HEADER_SIZE) bytes) /\
    main atoi files writable totalBegin begin_ end_ totalEnd fresh stack argv
    = if writable (default EmptyString (argv !! 2%nat))
      then mkRun 0 [PrintAlgorithmTime (end_ - begin_);
                    PrintTotalTime (totalEnd - totalBegin)]
             (Some (default EmptyString (argv !! 2%nat),
                    take (Z.to_nat BMP_HEADER_SIZE) bytes
                    ++ ((stored_pixel pixels (getWidth bytes) (getHeight bytes)
                           (size_t (atoi (default EmptyString (argv !! 3%nat))))
                         <$> seqZ 0 (getWidth bytes * getHeight bytes))
                        ≫= pixel_bytes)))
      else UndefinedRun.
Proof.
  intros Hargc Hfile Hlen. unfold BMP_HEADER_SIZE, PIXEL_REAL_SIZE in Hlen.
  change (Z.to_nat BMP_HEADER_SIZE) with 54%nat.
  pose proof (dimensions_size bytes) as [_ Hrange0].
  unfold main. rewrite Hargc, Hfile. cbn [Z.eqb Pos.eqb negb].
  rewrite readBmp_long by (unfold BMP_HEADER_SIZE; lia). cbv zeta.
  set (header' := take 54 bytes ++ drop 54 stack).
  assert (Hw : getWidth header' = getWidth bytes)
    by (apply load_uint_prefix; unfold BMP_HEADER_WIDTH_OFFSET; lia).
  assert (Hh : getHeight header' = getHeight bytes)
    by (apply load_uint_prefix; unfold BMP_HEADER_HEIGHT_OFFSET; lia).
  destruct (dimensions_size header') as [Hsize Hrange]. rewrite Hsize, Hw, Hh in *.
  pose proof (load_uint_range bytes BMP_HEADER_WIDTH_OFFSET) as Hwr.
  pose proof (load_uint_range bytes BMP_HEADER_HEIGHT_OFFSET) as Hhr.
  fold (getWidth bytes) in Hwr. fold (getHeight bytes) in Hhr.
  set (width := getWidth bytes) in *. set (height := getHeight bytes) in *.
  destruct (read_pixels_enough (Z.to_nat (width * height)) (drop 54 bytes) 0
              (width * height) [])
    as (pixels & Hread & Hlenp & Hbytes); [lia|rewrite length_drop; lia|].
  rewrite Hread. cbn [app read_ok read_header read_bmp negb default].
  rewrite Hw, Hh, Hsize. fold width height.
  exists pixels. split; [lia|]. split; [rewrite Hlenp; exact Hbytes|].
  destruct (writable (default EmptyString (argv !! 2%nat))); [|reflexivity].
  unfold for_lt. change (Z.to_nat (100 - 0)) with (S 99).
  rewrite kernel_repeated
    by first [lia | rewrite length_fmap, length_seq; lia].
  rewrite writeBmp_pixels
    by (rewrite Hw, Hh, length_fmap, length_seqZ; fold width height; lia).
  cbn [negb]. change (Z.to_nat BMP_HEADER_SIZE) with 54%nat.
  unfold header'. rewrite take_app_length' by (rewrite length_take; lia).
  reflexivity.
Qed.

(** A run on a readable file that holds the header and all its pixels,
    with a writable output path: the program exits with status 0, prints
    the two timings and writes the input header followed by the pixels
    that one run of the kernel computes from the decoded pixels. *)
Theorem main_pipeline (argv : list string) (bytes : list byte) :
  Z.of_nat (length argv) = 4 ->
  files (default EmptyString (argv !! 1%nat)) = Some bytes ->
  BMP_HEADER_SIZE + PIXEL_REAL_SIZE * (getWidth bytes * getHeight bytes)
    <= Z.of_nat (length bytes) ->
  writable (default EmptyString (argv !! 2%nat)) = true ->
  exists pixels,
    Z.of_nat (length pixels) = getWidth bytes * getHeight bytes /\
    pixels ≫= pixel_bytes
    = take (3 * length pixels) (drop (Z.to_nat BMP_HEADER_SIZE) bytes) /\
    forall result, Z.of_nat (length result) = getWidth bytes * getHeight bytes ->
    main atoi files writable totalBegin begin_ end_ totalEnd fresh stack argv
    = mkRun 0 [PrintAlgorithmTime (end_ - begin_);
               PrintTotalTime (totalEnd - totalBegin)]
        (Some (default EmptyString (argv !! 2%nat),
               take (Z.to_nat BMP_HEADER_SIZE) bytes
               ++ (processImageSmoothFilter pixels (getWidth bytes) (getHeight bytes)
                     (size_t (atoi (default EmptyString (argv !! 3%nat)))) result
                   ≫= pixel_bytes))).
Proof.
  intros Hargc Hfile Hlen Hwr.
  destruct (main_after_decode argv bytes Hargc Hfile Hlen) as (pixels & Hl & Hb & Hmain).
  rewrite Hwr in Hmain.
  exists pixels. split; [exact Hl|]. split; [exact Hb|]. intros result Hres.
  pose proof (dimensions_size bytes) as [_ Hrange].
  pose proof (load_uint_range bytes BMP_HEADER_WIDTH_OFFSET) as Hw.
  pose proof (load_uint_range bytes BMP_HEADER_HEIGHT_OFFSET) as Hh.
  fold (getWidth bytes) in Hw. fold (getHeight bytes) in Hh.
  rewrite kernel_closed_form by lia. exact Hmain.
Qed.

(** With radius 0 the program copies a well-formed file byte for byte. *)
Theorem main_radius_0_copies (argv : list string) (bytes : list byte) :
  Z.of_nat (length argv) = 4 ->
  atoi (default EmptyString (argv !! 3%nat)) = 0 ->
  files (default EmptyString (argv !! 1%nat)) = Some bytes ->
  well_formed_file bytes ->
  writable (default EmptyString (argv !! 2%nat)) = true ->
  main atoi files writable totalBegin begin_ end_ totalEnd fresh stack argv
  = mkRun 0 [PrintAlgorithmTime (end_ - begin_);
             PrintTotalTime (totalEnd - totalBegin)]
      (Some (default EmptyString (argv !! 2%nat), bytes)).
Proof.
  intros Hargc Hatoi Hfile [Hlen54 Hlen] Hwr.
  destruct (main_after_decode argv bytes Hargc Hfile ltac:(lia)) as (pixels & Hl & Hb & Hmain).
  rewrite Hwr, Hatoi in Hmain. rewrite Hmain. do 3 f_equal.
  unfold BMP_HEADER_SIZE, PIXEL_REAL_SIZE in *.
  change (Z.to_nat BMP_HEADER_SIZE) with 54%nat in *.
  pose proof (dimensions_size bytes) as [_ Hrange].
  pose proof (load_uint_range bytes BMP_HEADER_WIDTH_OFFSET) as Hw.
  pose proof (load_uint_range bytes BMP_HEADER_HEIGHT_OFFSET) as Hh.
  fold (getWidth bytes) in Hw. fold (getHeight bytes) in Hh.
  assert (Hcopy : stored_pixel pixels (getWidth bytes) (getHeight bytes) (size_t 0)
                    <$> seqZ 0 (getWidth bytes * getHeight bytes) = pixels).
  { rewrite <- (pixels_by_index pixels) at 2. rewrite Hl.
    apply list_eq. intros n. rewrite !list_lookup_fmap.
    destruct (seqZ 0 (getWidth bytes * getHeight bytes) !! n) as [p|] eqn:Hp; [|reflexivity].
    apply lookup_seqZ in Hp as [-> Hn]. cbn [fmap option_fmap option_map].
    f_equal. apply stored_pixel_radius_0; lia. }
  rewrite Hcopy, Hb, (take_ge (drop 54 bytes)) by (rewrite length_drop; lia).
  apply take_drop.
Qed.

(** An input file that cannot be opened, or that ends inside the header
    or right after it although the header announces pixels: the program
    prints the diagnostic that names the input file, exits with status 1
    and writes nothing. *)
Theorem main_decode_failure (argv : list string) :
  Z.of_nat (length argv) = 4 ->
  (files (default EmptyString (argv !! 1%nat)) = None \/
   exists bytes, files (default EmptyString (argv !! 1%nat)) = Some bytes /\
     (Z.of_nat (length bytes) < BMP_HEADER_SIZE \/
      Z.of_nat (length bytes) = BMP_HEADER_SIZE /\
      0 < getWidth bytes * getHeight bytes)) ->
  main atoi files writable totalBegin begin_ end_ totalEnd fresh stack argv
  = mkRun 1 [PrintCannotRead (default EmptyString (argv !! 1%nat))] None.
Proof.
  intros Hargc Hfail. unfold main. rewrite Hargc. cbn [Z.eqb Pos.eqb negb].
  assert (Hok : read_ok (readBmp (files (default EmptyString (argv !! 1%nat))) stack None)
                = false).
  { destruct Hfail as [-> | (bytes & -> & Hcut)]; [reflexivity|].
    assert (Hshort : Z.of_nat (length bytes) < BMP_HEADER_SIZE \/
                     Z.of_nat (length bytes)
                     < BMP_HEADER_SIZE
                       + PIXEL_REAL_SIZE * (getWidth bytes * getHeight bytes))
      by (unfold PIXEL_REAL_SIZE; lia).
    clear Hcut.
    destruct (Z.lt_ge_cases (Z.of_nat (length bytes)) BMP_HEADER_SIZE) as [Hlt|Hge].
    - rewrite readBmp_short by exact Hlt. reflexivity.
    - rewrite readBmp_long by exact Hge. cbv zeta.
      unfold BMP_HEADER_SIZE, PIXEL_REAL_SIZE in *.
      set (header' := take 54 bytes ++ drop 54 stack).
      assert (Hw : getWidth header' = getWidth bytes)
        by (apply load_uint_prefix; unfold BMP_HEADER_WIDTH_OFFSET; lia).
      assert (Hh : getHeight header' = getHeight bytes)
        by (apply load_uint_prefix; unfold BMP_HEADER_HEIGHT_OFFSET; lia).
      destruct (dimensions_size header') as [Hsize Hrange]. rewrite Hsize, Hw, Hh in *.
      rewrite (read_pixels_short (Z.to_nat (getWidth bytes * getHeight bytes)))
        by (rewrite ?length_drop; lia).
      reflexivity. }
  rewrite Hok. reflexivity.
Qed.

(** An output path that cannot be opened, after a successful decode:
    [writeBmp] calls [fclose] on the null stream, so the run is undefined.
    The program does not get to print the diagnostic that names the output
    file, nor to exit with status 1. *)
Theorem main_encode_failure (argv : list string) (bytes : list byte) :
  Z.of_nat (length argv) = 4 ->
  files (default EmptyString (argv !! 1%nat)) = Some bytes ->
  BMP_HEADER_SIZE + PIXEL_REAL_SIZE * (getWidth bytes * getHeight bytes)
    <= Z.of_nat (length bytes) ->
  writable (default EmptyString (argv !! 2%nat)) = false ->
  main atoi files writable totalBegin begin_ end_ totalEnd fresh stack argv
  = UndefinedRun.
Proof.
  intros Hargc Hfile Hlen Hwr.
  destruct (main_after_decode argv bytes Hargc Hfile Hlen) as (pixels & _ & _ & Hmain).
  rewrite Hwr in Hmain. exact Hmain.
Qed.

End DriverProperties.

Lemma main_pipeline_witness :
  exists pixels,
    Z.of_nat (length pixels) = getWidth tiny_file * getHeight tiny_file /\
    pixels ≫= pixel_bytes
    = take (3 * length pixels) (drop (Z.to_nat BMP_HEADER_SIZE) tiny_file) /\
    forall result, Z.of_nat (length result) = getWidth tiny_file * getHeight tiny_file ->
    main (fun _ => 2) (fun _ => Some tiny_file) (fun _ => true) 5 6 8 9
      (fun _ => zeroPixel) (replicate 54 x00)
      ["smooth"; "in.bmp"; "out.bmp"; "2"]%string
    = mkRun 0 [PrintAlgorithmTime (8 - 6); PrintTotalTime (9 - 5)]
        (Some ("out.bmp"%string,
               take (Z.to_nat BMP_HEADER_SIZE) tiny_file
               ++ (processImageSmoothFilter pixels (getWidth tiny_file) (getHeight tiny_file)
                     (size_t 2) result
                   ≫= pixel_bytes))).
Proof.
  apply (main_pipeline (fun _ => 2) (fun _ => Some tiny_file) (fun _ => true) 5 6 8 9
           (fun _ => zeroPixel) (replicate 54 x00)
           ["smooth"; "in.bmp"; "out.bmp"; "2"]%string tiny_file).
  - reflexivity.
  - reflexivity.
  - vm_compute. congruence.
  - reflexivity.
Defined.

Lemma main_radius_0_copies_witness :
  main (fun _ => 0) (fun _ => Some tiny_file) (fun _ => true) 5 6 8 9
    (fun _ => zeroPixel) (replicate 54 x00)
    ["smooth"; "in.bmp"; "out.bmp"; "0"]%string
  = mkRun 0 [PrintAlgorithmTime (8 - 6); PrintTotalTime (9 - 5)]
      (Some ("out.bmp"%string, tiny_file)).
Proof.
  apply (main_radius_0_copies (fun _ => 0) (fun _ => Some tiny_file) (fun _ => true) 5 6 8 9
           (fun _ => zeroPixel) (replicate 54 x00)
           ["smooth"; "in.bmp"; "out.bmp"; "0"]%string tiny_file).
  - reflexivity.
  - reflexivity.
  - reflexivity.
  - unfold well_formed_file. vm_compute. intuition congruence.
  - reflexivity.
Defined.

Lemma main_decode_failure_witness :
  main (fun _ => 1) (fun _ => Some (take 54 tiny_file)) (fun _ => true) 5 6 8 9
    (fun _ => zeroPixel) (replicate 54 x00)
    ["smooth"; "in.bmp"; "out.bmp"; "1"]%string
  = mkRun 1 [PrintCannotRead "in.bmp"%string] None.
Proof.
  apply (main_decode_failure (fun _ => 1) (fun _ => Some (take 54 tiny_file)) (fun _ => true)
           5 6 8 9 (fun _ => zeroPixel) (replicate 54 x00)
           ["smooth"; "in.bmp"; "out.bmp"; "1"]%string).
  - reflexivity.
  - right. exists (take 54 tiny_file). split; [reflexivity|]. right.
    vm_compute. auto.
Defined.

Lemma main_encode_failure_witness :
  main (fun _ => 1) (fun _ => Some tiny_file) (fun _ => false) 5 6 8 9
    (fun _ => zeroPixel) (replicate 54 x00)
    ["smooth"; "in.bmp"; "out.bmp"; "1"]%string
  = UndefinedRun.
Proof.
  apply (main_encode_failure (fun _ => 1) (fun _ => Some tiny_file) (fun _ => false)
           5 6 8 9 (fun _ => zeroPixel) (replicate 54 x00)
           ["smooth"; "in.bmp"; "out.bmp"; "1"]%string tiny_file).
  - reflexivity.
  - reflexivity.
  - vm_compute. congruence.
  - reflexivity.
Defined.
